(** * Social-Media-Analytics: the collector of [extract_data.py]

    A shallow embedding of the script's four functions
    ([is_image_url], [get_media_info], [fetch_comments],
    [fetch_posts_from_subreddits]) and of [main], followed by the
    properties of the time window, the comment selection, the media
    classification, the per-forum failure handling and the export.

    Conventions of the embedding:
    - a Python [int] is a [Z]; a [str] is a [string], one [ascii] per
      character; a [dict] with text keys is a [gmap string _];
    - a [datetime] is the number of microseconds it lies after a fixed
      origin of the naive local calendar, a [Z];
    - code that can raise returns a sum, the exception on the left; the
      raises modelled are those of the requests to the forum API and of
      [urlparse]; logging, sleeping and [mkdir] are taken to succeed;
    - the loop over the forums threads a [state]: the list [all_posts]
      and the log and sleep effects performed so far. *)

From Stdlib Require Import Ascii QArith.
From stdpp Require Import gmap strings list fin_maps pretty numbers sorting.

Local Open Scope Z_scope.

(** ** Python values and built-ins *)

Module Py.

(** [str.lower] on one character: [A-Z] go to [a-z], every other character
    is kept.  The script only compares lowered texts with "automoderator"
    and with the four image extensions, and no character outside [A-Z]
    lowers to a letter of these literals alone. *)
Definition lower_char (c : ascii) : ascii :=
  let n := nat_of_ascii c in
  if ((65 <=? n) && (n <=? 90))%nat then ascii_of_nat (n + 32) else c.

Fixpoint lower (s : string) : string :=
  match s with
  | EmptyString => EmptyString
  | String c s' => String (lower_char c) (lower s')
  end.

(** [s.endswith(suffix)] *)
Fixpoint endswith (s suffix : string) : bool :=
  bool_decide (s = suffix) ||
  match s with
  | EmptyString => false
  | String _ s' => endswith s' suffix
  end.

(** [s[:n]] on a text, for [n >= 0] characters. *)
Fixpoint str_take (n : nat) (s : string) : string :=
  match n, s with
  | S n', String c s' => String c (str_take n' s')
  | _, _ => EmptyString
  end.

(** [s[:stop]]: a negative [stop] counts from the end. *)
Definition str_slice_to (s : string) (stop : Z) : string :=
  if stop <? 0
  then str_take (Z.to_nat (Z.of_nat (String.length s) + stop)) s
  else str_take (Z.to_nat stop) s.

(** [l[:stop]] on a list. *)
Definition slice_to {A} (l : list A) (stop : Z) : list A :=
  if stop <? 0
  then take (Z.to_nat (Z.of_nat (length l) + stop)) l
  else take (Z.to_nat stop) l.

(** [sorted(l, key=key, reverse=True)] and [l.sort(key=key, reverse=True)]:
    descending by key, and stable: an element moves in front of those
    placed so far whose key is not larger than its own, and behind the
    others. *)
Fixpoint insert_desc {A} (key : A → Z) (x : A) (l : list A) : list A :=
  match l with
  | [] => [x]
  | y :: l' => if key x <? key y then y :: insert_desc key x l' else x :: l
  end.

Definition sorted_reverse {A} (key : A → Z) (l : list A) : list A :=
  foldr (insert_desc key) [] l.

(** [enumerate(l)] *)
Definition enumerate {A} (l : list A) : list (nat * A) :=
  zip (seq 0 (length l)) l.

(** The values a flattened record holds. *)
Inductive value :=
| VNone
| VBool (b : bool)
| VInt (n : Z)
| VFloat (q : Q)
| VStr (s : string).

(** The exceptions below [Exception] that reach the script:
    [prawcore]'s [ResponseException] with the status of its response,
    and any other one.  Both carry the text [str(e)] gives. *)
Inductive exn :=
| ResponseException (status_code : Z) (msg : string)
| Exception (msg : string).

Definition exn_str (e : exn) : string :=
  match e with
  | ResponseException _ msg => msg
  | Exception msg => msg
  end.

End Py.

Import Py.

(** ** Data model *)

(** A comment of the listing [submission.comments.list()]. *)
Module Comment.
Record t := mk {
  author : option string;  (* [None]: the account is gone *)
  body : string;
  score : Z
}.

(** [str(comment.author)] *)
Definition author_str (c : t) : string :=
  match author c with
  | Some name => name
  | None => "None"
  end.
End Comment.

(** A dict as [fetch_comments] builds it, in the order of its items. *)
Abbreviation comment_dict := (list (string * value)).

(** A flattened post record. *)
Abbreviation post_data := (gmap string value).

(** A submission, with the attributes the script reads.  An attribute that
    [hasattr] may miss is an [option]; [created] is
    [datetime.fromtimestamp(submission.created_utc)]; [comments] is what
    [replace_more(limit=0)] followed by [list()] gives, or the exception
    the requests behind them raise. *)
Module Submission.
Record t := mk {
  id : string;
  created : Z;
  link_flair_text : option string;
  title : string;
  selftext : string;
  score : Z;
  upvote_ratio : Q;
  num_comments : Z;
  url : string;
  is_video : option bool;
  media : option (gmap string (gmap string value));
  is_gallery : option bool;
  media_metadata : option (option (list string));
  comments : exn + list Comment.t
}.
End Submission.

(** The listing [subreddit.new(limit=None)]: each step of the iteration
    yields a submission or raises; nothing follows a raise. *)
Abbreviation listing := (list (exn + Submission.t)).

(** What the script is run against: the two library functions it calls on
    its data, the clock, the forum listings, and the outcome of writing
    the file. *)
Record env := {
  urlparse_path : string → exn + string;  (* [urlparse(url).path] *)
  strftime : Z → string;                  (* ['%Y-%m-%d %H:%M:%S'] *)
  now : Z;                                (* [datetime.now()] of the fetch *)
  reddit_new : string → listing;          (* [reddit.subreddit(s).new(limit=None)] *)
  export_stamp : string;                  (* [datetime.now()] of the export, as ['%Y%m%d_%H%M%S'] *)
  to_csv : string → list post_data → option exn;
  sample_repr : list post_data → string   (* the text of [df.sample(...)] *)
}.

Record config := {
  subreddits : list string;
  post_limit : Z;
  comment_limit : Z;
  months : Z
}.

(** ** Media classifier *)

Definition image_extensions : list string := [".jpg"; ".jpeg"; ".png"; ".gif"].

Definition is_image_url (E : env) (url : string) : exn + bool :=
  match urlparse_path E url with
  | inl e => inl e
  | inr path => inr (existsb (endswith (lower path)) image_extensions)
  end.

Record media_info := {
  has_image : bool;
  has_video : bool;
  image_url : value;
  video_url : value;
  mi_media_metadata : option (list string)
}.

(** Truth value of a text, of an optional flag and of an optional dict. *)
Definition str_truthy (s : string) : bool := negb (bool_decide (s = "")).
Definition flag_truthy (f : option bool) : bool := default false f.
Definition dict_truthy {V} (d : option (gmap string V)) : bool :=
  match d with
  | Some m => negb (size m =? 0)%nat
  | None => false
  end.

(** The three steps of [get_media_info], each on the dict so far. *)
Definition media_image (E : env) (s : Submission.t) (mi : media_info) : exn + media_info :=
  if str_truthy (Submission.url s) then
    match is_image_url E (Submission.url s) with
    | inl e => inl e
    | inr true =>
        inr {| has_image := true; has_video := has_video mi;
               image_url := VStr (Submission.url s); video_url := video_url mi;
               mi_media_metadata := mi_media_metadata mi |}
    | inr false => inr mi
    end
  else inr mi.

Definition media_video (s : Submission.t) (mi : media_info) : media_info :=
  if flag_truthy (Submission.is_video s) then
    {| has_image := has_image mi; has_video := true;
       image_url := image_url mi;
       video_url :=
         if dict_truthy (Submission.media s)
         then default VNone
                (default ∅ (default ∅ (Submission.media s) !! "reddit_video")
                   !! "fallback_url")
         else video_url mi;
       mi_media_metadata := mi_media_metadata mi |}
  else mi.

Definition media_gallery (s : Submission.t) (mi : media_info) : media_info :=
  if flag_truthy (Submission.is_gallery s) then
    {| has_image := true; has_video := has_video mi;
       image_url := image_url mi; video_url := video_url mi;
       mi_media_metadata :=
         match Submission.media_metadata s with
         | Some md => md
         | None => mi_media_metadata mi
         end |}
  else mi.

Definition get_media_info (E : env) (s : Submission.t) : exn + media_info :=
  let media_info0 :=
    {| has_image := false; has_video := false;
       image_url := VNone; video_url := VNone;
       mi_media_metadata := None |} in
  match media_image E s media_info0 with
  | inl e => inl e
  | inr mi => inr (media_gallery s (media_video s mi))
  end.

(** ** Comment selector *)

Definition is_automoderator (c : Comment.t) : bool :=
  bool_decide (lower (Comment.author_str c) = "automoderator").

Definition comment_entry (c : Comment.t) : comment_dict :=
  [("comment_body", VStr (str_slice_to (Comment.body c) 500));
   ("comment_score", VInt (Comment.score c))].

(** The loop of [fetch_comments] over the sorted comments, [comments] being
    the list built so far. *)
Fixpoint fetch_comments_loop (sorted_comments : list Comment.t) (limit : Z)
    (comments : list comment_dict) : list comment_dict :=
  match sorted_comments with
  | [] => comments
  | comment :: rest =>
      if negb (is_automoderator comment) then
        let comments' := comments ++ [comment_entry comment] in
        if limit <=? Z.of_nat (length comments')
        then comments'
        else fetch_comments_loop rest limit comments'
      else fetch_comments_loop rest limit comments
  end.

Definition fetch_comments (comments_list : list Comment.t) (limit : Z)
    : list comment_dict :=
  fetch_comments_loop (sorted_reverse Comment.score comments_list) limit [].

(** ** Forum page walker *)

Inductive level := INFO | WARNING | ERROR.

(** What the run does besides computing: log lines, sleeps (milliseconds),
    and the two steps that touch the file system. *)
Inductive event :=
| Log (lv : level) (msg : string)
| Sleep (millis : Z)
| Mkdir (path : string)
| ToCsv (filename : string) (rows : list post_data).

Record state := {
  all_posts : list post_data;
  effects : list event
}.

Definition log (lv : level) (msg : string) (st : state) : state :=
  {| all_posts := all_posts st; effects := effects st ++ [Log lv msg] |}.

Definition sleep (millis : Z) (st : state) : state :=
  {| all_posts := all_posts st; effects := effects st ++ [Sleep millis] |}.

Definition append_post (pd : post_data) (st : state) : state :=
  {| all_posts := all_posts st ++ [pd]; effects := effects st |}.

(** The dict literal [post_data = {...}], in the order of the source. *)
Definition post_data_literal (E : env) (subreddit : string)
    (submission : Submission.t) (mi : media_info) : post_data :=
  list_to_map
    [("subreddit", VStr subreddit);
     ("post_id", VStr (Submission.id submission));
     ("created_utc", VStr (strftime E (Submission.created submission)));
     ("post_flair", from_option VStr VNone (Submission.link_flair_text submission));
     ("title", VStr (Submission.title submission));
     ("selftext", VStr (str_slice_to (Submission.selftext submission) 500));
     ("score", VInt (Submission.score submission));
     ("upvote_ratio", VFloat (Submission.upvote_ratio submission));
     ("num_comments", VInt (Submission.num_comments submission));
     ("url", VStr (Submission.url submission));
     ("has_image", VBool (has_image mi));
     ("has_video", VBool (has_video mi));
     ("image_url", image_url mi);
     ("video_url", video_url mi);
     ("is_gallery", VBool (flag_truthy (Submission.is_gallery submission)))].

Definition add_gallery_item_count (mi : media_info) (pd : post_data) : post_data :=
  match mi_media_metadata mi with
  | Some ((_ :: _) as items) =>
      <["gallery_item_count" := VInt (Z.of_nat (length items))]> pd
  | _ => pd
  end.

(** [post_data[f'{key}_{i+1}'] = value] for the items of one comment. *)
Definition flatten_comment (i : nat) (comment : comment_dict) (pd : post_data)
    : post_data :=
  foldl (λ pd '(key, value), <[key +:+ "_" +:+ pretty (i + 1)%nat := value]> pd)
        pd comment.

Definition flatten_comments (comments : list comment_dict) (pd : post_data)
    : post_data :=
  foldl (λ pd '(i, comment), flatten_comment i comment pd) pd (enumerate comments).

(** The body of the inner loop for a submission inside the window, up to
    the record that is appended. *)
Definition build_post_data (E : env) (comment_limit : Z) (subreddit : string)
    (submission : Submission.t) : exn + post_data :=
  match get_media_info E submission with
  | inl e => inl e
  | inr mi =>
      let pd := add_gallery_item_count mi
                  (post_data_literal E subreddit submission mi) in
      match Submission.comments submission with
      | inl e => inl e
      | inr comments_list =>
          inr (flatten_comments (fetch_comments comments_list comment_limit) pd)
      end
  end.

(** [for submission in submissions: ...]: the state reached, and the
    exception that ended the loop when one did. *)
Fixpoint walk (E : env) (start_date end_date comment_limit : Z)
    (subreddit : string) (submissions : listing) (st : state)
    : state * option exn :=
  match submissions with
  | [] => (st, None)
  | inl e :: _ => (st, Some e)
  | inr submission :: rest =>
      let submission_date := Submission.created submission in
      if submission_date <? start_date then (st, None)
      else if end_date <? submission_date
      then walk E start_date end_date comment_limit subreddit rest st
      else
        match build_post_data E comment_limit subreddit submission with
        | inl e => (st, Some e)
        | inr pd =>
            walk E start_date end_date comment_limit subreddit rest
                 (sleep 100 (append_post pd st))
        end
  end.

(** The [try] statement around the walk of one forum. *)
Definition fetch_subreddit (E : env) (start_date end_date comment_limit : Z)
    (st : state) (subreddit : string) : state :=
  match walk E start_date end_date comment_limit subreddit
             (reddit_new E subreddit) st with
  | (st', None) => log INFO ("Fetched posts from r/" +:+ subreddit) st'
  | (st', Some (ResponseException status_code _ as e)) =>
      if status_code =? 429 then
        sleep 60000
          (log WARNING ("Rate limit reached for r/" +:+ subreddit +:+
                        ". Waiting for 60 seconds before retrying...") st')
      else
        log ERROR ("Error fetching posts from r/" +:+ subreddit +:+ ": " +:+
                   exn_str e) st'
  | (st', Some (Exception _ as e)) =>
      log ERROR ("Error fetching posts from r/" +:+ subreddit +:+ ": " +:+
                 exn_str e) st'
  end.

(** Microseconds in the [timedelta(days=1)]. *)
Definition day : Z := 86400000000.

Definition start_of (E : env) (months : Z) : Z := now E - 30 * months * day.

(** [for subreddit in subreddits: ...] from a given state. *)
Definition fetch_subreddits (E : env) (comment_limit months : Z)
    (subreddits : list string) (st : state) : state :=
  foldl (fetch_subreddit E (start_of E months) (now E) comment_limit)
        st subreddits.

Definition fetch_posts_from_subreddits (E : env) (subreddits : list string)
    (comment_limit months : Z) : state :=
  fetch_subreddits E comment_limit months subreddits
                   {| all_posts := []; effects := [] |}.

(** ** Aggregator and exporter *)

(** [x['score']] *)
Definition post_score (pd : post_data) : Z :=
  match pd !! "score" with
  | Some (VInt n) => n
  | _ => 0
  end.

(** [all_posts.sort(key=..., reverse=True)] and [all_posts[:post_limit]]. *)
Definition top_posts (all_posts : list post_data) (post_limit : Z)
    : list post_data :=
  slice_to (sorted_reverse post_score all_posts) post_limit.

Definition csv_filename (E : env) : string :=
  "data/reddit_top_posts_" +:+ export_stamp E +:+ ".csv".

(** The effects of [main], in order. *)
Definition main (E : env) (cfg : config) : list event :=
  let started :=
    Log INFO ("Starting data collection for top " +:+ pretty (post_limit cfg) +:+
              " posts in the past " +:+ pretty (months cfg) +:+
              " months from all specified subreddits...") in
  let st := fetch_posts_from_subreddits E (subreddits cfg) (comment_limit cfg)
                                        (months cfg) in
  match all_posts st with
  | [] => started :: effects st ++ [Log WARNING "No data collected. Exiting."]
  | _ :: _ =>
      let rows := top_posts (all_posts st) (post_limit cfg) in
      let filename := csv_filename E in
      started :: effects st ++ [Mkdir "data"; ToCsv filename rows] ++
      match to_csv E filename rows with
      | None =>
          [Log INFO ("Data saved to " +:+ filename);
           Log INFO ("Total posts collected: " +:+ pretty (length rows));
           Log INFO ("Sample of collected data:" +:+ String "010" (sample_repr E rows))]
      | Some e => [Log ERROR ("Error saving data to CSV: " +:+ exn_str e)]
      end
  end.

(** ** Auxiliary notions used by the statements *)

(** The comments [fetch_comments] may select. *)
Definition eligible (c : Comment.t) : Prop :=
  lower (Comment.author_str c) ≠ "automoderator".

Global Instance eligible_dec c : Decision (eligible c).
Proof. unfold eligible. apply _. Defined.

(** [d[key]] on a dict kept as the list of its items. *)
Fixpoint dict_get (key : string) (d : comment_dict) : option value :=
  match d with
  | [] => None
  | (k, v) :: d' => if bool_decide (k = key) then Some v else dict_get key d'
  end.

Definition entry_score (d : comment_dict) : Z :=
  match dict_get "comment_score" d with
  | Some (VInt n) => n
  | _ => 0
  end.

(** Order of two comments given with their positions in the listing: the
    first has the larger score, or the same score and the earlier position. *)
Definition ranks_before (a b : nat * Comment.t) : Prop :=
  Comment.score b.2 < Comment.score a.2 ∨
  (Comment.score b.2 = Comment.score a.2 ∧ (a.1 < b.1)%nat).

(** The window of the fetch, on the creation date of a submission. *)
Definition in_window (E : env) (months : Z) (s : Submission.t) : Prop :=
  start_of E months ≤ Submission.created s ≤ now E.

Global Instance in_window_dec E months s : Decision (in_window E months s).
Proof. unfold in_window. apply _. Defined.


(** A path ends, lowercased, with one of the four image extensions. *)
Definition has_image_extension (path : string) : Prop :=
  ∃ ext, ext ∈ [".jpg"; ".jpeg"; ".png"; ".gif"] ∧
         endswith (lower path) ext = true.

(** The events that touch the file system. *)
Definition is_file_event (ev : event) : Prop :=
  match ev with
  | Mkdir _ | ToCsv _ _ => True
  | _ => False
  end.

(** The records one forum contributes: those its walk appends, from a state
    without records. *)
Definition forum_posts (E : env) (comment_limit months : Z) (subreddit : string)
    : list post_data :=
  all_posts
    (walk E (start_of E months) (now E) comment_limit subreddit
          (reddit_new E subreddit) {| all_posts := []; effects := [] |}).1.

(** The line a forum leaves in the log, whatever its outcome. *)
Definition forum_logged (subreddit : string) (evs : list event) : Prop :=
  Log INFO ("Fetched posts from r/" +:+ subreddit) ∈ evs ∨
  Log WARNING ("Rate limit reached for r/" +:+ subreddit +:+
               ". Waiting for 60 seconds before retrying...") ∈ evs ∨
  ∃ e, Log ERROR ("Error fetching posts from r/" +:+ subreddit +:+ ": " +:+
                  exn_str e) ∈ evs.

(** The effects of the handlers of the [try] statement for an exception,
    and of the statement for each way the walk of a forum can end. *)
Definition handler_effects (subreddit : string) (e : exn) : list event :=
  match e with
  | ResponseException status_code _ =>
      if status_code =? 429 then
        [Log WARNING ("Rate limit reached for r/" +:+ subreddit +:+
                      ". Waiting for 60 seconds before retrying...");
         Sleep 60000]
      else
        [Log ERROR ("Error fetching posts from r/" +:+ subreddit +:+ ": " +:+
                    exn_str e)]
  | Exception _ =>
      [Log ERROR ("Error fetching posts from r/" +:+ subreddit +:+ ": " +:+
                  exn_str e)]
  end.

Definition outcome_effects (subreddit : string) (raised : option exn)
    : list event :=
  match raised with
  | None => [Log INFO ("Fetched posts from r/" +:+ subreddit)]
  | Some e => handler_effects subreddit e
  end.

(** A state with more records and more effects behind those it holds. *)
Definition extend (st : state) (posts : list post_data) (evs : list event)
    : state :=
  {| all_posts := all_posts st ++ posts; effects := effects st ++ evs |}.

(** The fields of a record that hold a text body. *)
Definition is_body_key (key : string) : Prop :=
  key = "selftext" ∨ String.prefix "comment_body_" key = true.

(** Every text body of a record has at most 500 characters. *)
Definition bodies_bounded (pd : post_data) : Prop :=
  ∀ key v, pd !! key = Some v → is_body_key key →
    ∃ s, v = VStr s ∧ (String.length s ≤ 500)%nat.

(** ** Sample data for the examples *)

Module Sample.

Definition comment (author body : string) (score : Z) : Comment.t :=
  Comment.mk (Some author) body score.

(** A text of 600 characters. *)
Definition long_text : string :=
  foldr String.append "" (replicate 60 "0123456789").

Definition thread : list Comment.t :=
  [comment "alice" "first" 3;
   comment "AutoModerator" "rules" 9;
   comment "bob" "second" 7;
   comment "carol" "third" 3;
   Comment.mk None "gone" 7].

(** A submission created on day [d], with a score, a URL, the gallery
    flag and its comments. *)
Definition post (id : string) (d score : Z) (url : string)
    (gallery : option bool) (comments : exn + list Comment.t)
    : Submission.t :=
  Submission.mk id (d * day) None ("title of " +:+ id) "text" score
                (97 # 100) 5 url (Some false) None gallery None comments.

Definition rate_limited : exn :=
  ResponseException 429 "received 429 HTTP response".

Definition a1 := post "a1" 99 40 "https://example.org/story" None (inr thread).
Definition a2 := post "a2" 98 50 "https://example.org/other" None (inr []).
Definition b0 := post "b0" 101 10 "https://example.org/ahead" None (inr []).
Definition b1 := post "b1" 90 70 "https://i.redd.it/cat.JPG?s=1" None (inr thread).
Definition b2 := post "b2" 80 20 "https://www.reddit.com/gallery/b2" (Some true) (inr []).
Definition b3 := post "b3" 60 90 "https://example.org/old" None (inr thread).
Definition b4 := post "b4" 85 95 "https://example.org/late" None (inr thread).

(** Forum "A" answers one page and then a 429; forum "B" answers a
    submission ahead of the clock, two of the last thirty days, an older
    one and, out of order behind it, a recent one. *)
Definition listing_of (subreddit : string) : listing :=
  if bool_decide (subreddit = "A") then [inr a1; inl rate_limited; inr a2]
  else if bool_decide (subreddit = "B") then [inr b0; inr b1; inr b2; inr b3; inr b4]
  else [].

(** A stand-in for [urlparse(url).path] on the URLs of the samples: what
    follows the host of an [scheme://host/...] URL, or the whole text
    without ["://"], up to the first [?] or [#]. *)
Fixpoint until_query (s : string) : string :=
  match s with
  | EmptyString => EmptyString
  | String c s' =>
      if bool_decide (c = "?"%char) || bool_decide (c = "#"%char)
      then EmptyString
      else String c (until_query s')
  end.

Definition url_path (url : string) : string :=
  let from i t := String.substring i (String.length t) t in
  match String.index 0 "://" url with
  | Some i =>
      let behind := from (i + 3)%nat url in
      match String.index 0 "/" behind with
      | Some j => until_query (from j behind)
      | None => EmptyString
      end
  | None => until_query url
  end.

(** The clock reads day 100. *)
Definition env : env := {|
  urlparse_path := λ url, inr (url_path url);
  strftime := λ t, pretty t;
  now := 100 * day;
  reddit_new := listing_of;
  export_stamp := "20240201_120000";
  to_csv := λ _ _, None;
  sample_repr := λ _, ""
|}.

Definition empty : state := {| all_posts := []; effects := [] |}.

Definition cfg : config :=
  {| subreddits := ["A"; "B"]; post_limit := 2; comment_limit := 3; months := 1 |}.

(** The first record the run with [cfg] collects. *)
Definition first_record : post_data :=
  default ∅ (all_posts (fetch_posts_from_subreddits env (subreddits cfg)
                          (comment_limit cfg) (months cfg)) !! 0%nat).

(** A run over a forum that has no submissions. *)
Definition quiet_cfg : config :=
  {| subreddits := ["C"]; post_limit := 2; comment_limit := 3; months := 1 |}.

Definition record (score : Z) : post_data := {["score" := VInt score]}.

(** The record built from a submission, with three comments at most. *)
Definition built (subreddit : string) (s : Submission.t) : post_data :=
  match build_post_data env 3 subreddit s with
  | inr pd => pd
  | inl _ => ∅
  end.

End Sample.

(** ** Further notions and samples *)

(** The comments whose entries [fetch_comments] returns: the first
    [max 1 limit] eligible ones of the sorted listing. *)
Definition selected_comments (cl : list Comment.t) (limit : Z)
    : list Comment.t :=
  take (Z.to_nat (Z.max 1 limit))
       (filter eligible (sorted_reverse Comment.score cl)).

(** The submissions a listing yields. *)
Definition delivered (l : listing) : list Submission.t :=
  omap (λ x, match x with inr s => Some s | inl _ => None end) l.

(** The way the walk of a forum ends, and the effects the forum adds to the
    run: those of its walk, then those of the way it ended. *)
Definition forum_raised (E : env) (comment_limit months : Z)
    (subreddit : string) : option exn :=
  (walk E (start_of E months) (now E) comment_limit subreddit
        (reddit_new E subreddit) {| all_posts := []; effects := [] |}).2.

Definition forum_effects (E : env) (comment_limit months : Z)
    (subreddit : string) : list event :=
  effects
    (walk E (start_of E months) (now E) comment_limit subreddit
          (reddit_new E subreddit) {| all_posts := []; effects := [] |}).1 ++
  outcome_effects subreddit (forum_raised E comment_limit months subreddit).

(** The pause of 100 milliseconds. *)
Definition is_pause (ev : event) : bool :=
  match ev with
  | Sleep millis => millis =? 100
  | _ => false
  end.

Module SampleMedia.

(** A hosted video, and a gallery of three images. *)
Definition video : Submission.t :=
  Submission.mk "v1" (95 * day) (Some "Clip") "a clip" "" 12 (9 # 10) 0
    "https://v.redd.it/x1" (Some true)
    (Some {["reddit_video" :=
              {["fallback_url" := VStr "https://v.redd.it/x1/DASH_720.mp4"]}]})
    None None (inr []).

Definition gallery : Submission.t :=
  Submission.mk "g1" (94 * day) None "three images" "" 30 (8 # 10) 0
    "https://www.reddit.com/gallery/g1" None None (Some true)
    (Some (Some ["img1"; "img2"; "img3"])) (inr Sample.thread).

Definition gallery_record : post_data :=
  match build_post_data Sample.env 2 "pics" gallery with
  | inr pd => pd
  | inl _ => ∅
  end.

(** An environment whose URL parser rejects every URL. *)
Definition strict_env : env := {|
  urlparse_path := λ url, inl (Exception "Invalid IPv6 URL");
  strftime := strftime Sample.env;
  now := now Sample.env;
  reddit_new := reddit_new Sample.env;
  export_stamp := export_stamp Sample.env;
  to_csv := to_csv Sample.env;
  sample_repr := sample_repr Sample.env
|}.

(** An environment in which writing the file raises. *)
Definition readonly_env : env := {|
  urlparse_path := urlparse_path Sample.env;
  strftime := strftime Sample.env;
  now := now Sample.env;
  reddit_new := reddit_new Sample.env;
  export_stamp := export_stamp Sample.env;
  to_csv := λ _ _, Some (Exception "Permission denied");
  sample_repr := sample_repr Sample.env
|}.

End SampleMedia.

(** * Properties *)

(** ** The descending stable sort *)

Section Sorting.
Context {A : Type} (key : A → Z).

Lemma insert_desc_perm x l : insert_desc key x l ≡ₚ x :: l.
Proof.
  induction l as [|y l IH]; simpl; [done|].
  case_match; [|done]. rewrite IH. apply Permutation_swap.
Qed.

Lemma sorted_reverse_perm l : sorted_reverse key l ≡ₚ l.
Proof.
  induction l as [|x l IH]; simpl; [done|].
  rewrite insert_desc_perm. by rewrite IH.
Qed.

Lemma sorted_reverse_length l : length (sorted_reverse key l) = length l.
Proof. by rewrite sorted_reverse_perm. Qed.

(** Inserting into a list sorted for a relation [R] that refines the
    descending order of the keys keeps it sorted, when the new element
    stands in [R] before every element whose key is not larger. *)
Lemma insert_desc_sorted (R : A → A → Prop) x l :
  (∀ a b, R a b → key b ≤ key a) →
  (∀ y, y ∈ l → key x < key y → R y x) →
  (∀ y, y ∈ l → key y ≤ key x → R x y) →
  StronglySorted R l → StronglySorted R (insert_desc key x l).
Proof.
  intros HR Hgt Hle Hs. induction Hs as [|y l Hs IH Hy]; simpl.
  { repeat constructor. }
  destruct (Z.ltb_spec (key x) (key y)) as [Hlt|Hge].
  - constructor.
    + apply IH; intros z Hz ?; [apply Hgt|apply Hle]; set_solver.
    + rewrite insert_desc_perm. constructor; [|done].
      apply Hgt; [set_solver|done].
  - constructor; [by constructor|].
    apply Forall_forall. intros z Hz. apply Hle; [done|].
    apply elem_of_cons in Hz as [->|Hz]; [done|].
    rewrite Forall_forall in Hy. specialize (HR _ _ (Hy _ Hz)). lia.
Qed.

Lemma sorted_reverse_sorted l :
  StronglySorted (λ a b, key b ≤ key a) (sorted_reverse key l).
Proof.
  induction l as [|x l IH]; simpl; [constructor|].
  apply insert_desc_sorted; [done| |done|done]. intros; lia.
Qed.

(** Filtering commutes with the sort: the sort is stable. *)
Lemma filter_insert_desc (P : A → Prop) `{!∀ x, Decision (P x)} x l :
  StronglySorted (λ a b, key b ≤ key a) l →
  filter P (insert_desc key x l) =
  if decide (P x) then insert_desc key x (filter P l) else filter P l.
Proof.
  intros Hs. induction Hs as [|y l Hs IH Hy]; simpl.
  { rewrite filter_cons, filter_nil. by case_decide. }
  destruct (Z.ltb_spec (key x) (key y)) as [Hlt|Hge].
  - rewrite !(filter_cons _ y), IH.
    destruct (decide (P x)), (decide (P y)); simpl; try done.
    by rewrite (proj2 (Z.ltb_lt _ _) Hlt).
  - rewrite filter_cons. destruct (decide (P x)); [|done].
    assert (Forall (λ z, key z ≤ key x) (filter P (y :: l))) as Hall.
    { apply Forall_forall. intros z [_ Hz]%list_elem_of_filter.
      apply elem_of_cons in Hz as [->|Hz]; [done|].
      rewrite Forall_forall in Hy. specialize (Hy _ Hz). simpl in Hy. lia. }
    destruct (filter P (y :: l)) as [|z l'] eqn:Heq; [done|]. simpl.
    apply Forall_cons in Hall as [Hz _].
    by rewrite (proj2 (Z.ltb_ge _ _) Hz).
Qed.

Lemma filter_sorted_reverse (P : A → Prop) `{!∀ x, Decision (P x)} l :
  filter P (sorted_reverse key l) = sorted_reverse key (filter P l).
Proof.
  induction l as [|x l IH]; simpl; [done|].
  rewrite filter_insert_desc by apply sorted_reverse_sorted.
  rewrite filter_cons, IH. by case_decide.
Qed.
End Sorting.

Lemma insert_desc_fmap {A B} (f : A → B) (key : B → Z) x l :
  insert_desc key (f x) (f <$> l) = f <$> insert_desc (key ∘ f) x l.
Proof.
  induction l as [|y l IH]; simpl; [done|].
  case_match; simpl; [f_equal; exact IH|done].
Qed.

Lemma sorted_reverse_fmap {A B} (f : A → B) (key : B → Z) l :
  sorted_reverse key (f <$> l) = f <$> sorted_reverse (key ∘ f) l.
Proof.
  induction l as [|x l IH]; [done|].
  change (insert_desc key (f x) (sorted_reverse key (f <$> l)) =
          f <$> insert_desc (key ∘ f) x (sorted_reverse (key ∘ f) l)).
  by rewrite IH, insert_desc_fmap.
Qed.

Lemma StronglySorted_sublist {A} (R : A → A → Prop) l1 l2 :
  l1 `sublist_of` l2 → StronglySorted R l2 → StronglySorted R l1.
Proof.
  induction 1 as [|x l1 l2 Hsub IH|x l1 l2 Hsub IH]; intros Hs; [done|..].
  - apply StronglySorted_inv in Hs as [Hs Hx]. constructor; [by apply IH|].
    apply Forall_forall. intros y Hy. rewrite Forall_forall in Hx.
    apply Hx. by eapply sublist_subseteq.
  - apply StronglySorted_inv in Hs as [Hs _]. by apply IH.
Qed.

Lemma StronglySorted_lookup_lt {A} (R : A → A → Prop) l i j x y :
  StronglySorted R l → l !! i = Some x → l !! j = Some y → (i < j)%nat → R x y.
Proof.
  intros Hs. revert i j. induction Hs as [|z l Hs IH Hz]; intros i j Hi Hj Hlt.
  { done. }
  destruct j as [|j]; [lia|]. destruct i as [|i]; simpl in *.
  - injection Hi as ->. rewrite Forall_forall in Hz. apply Hz.
    by eapply list_elem_of_lookup_2.
  - eapply IH; [done..|lia].
Qed.

Lemma filter_fmap_comp {A B} (f : A → B) (P : B → Prop)
    `{!∀ y, Decision (P y)} (l : list A) :
  filter P (f <$> l) = f <$> filter (P ∘ f) l.
Proof.
  induction l as [|x l IH]; [done|]. csimpl.
  rewrite !filter_cons, IH. simpl. by destruct (decide (P (f x))).
Qed.

(** Results known to be there by computation, named without computing them. *)
Lemma inr_intro {A B} (x : A + B) (d : B) :
  match x with inr _ => True | inl _ => False end →
  x = inr (match x with inr b => b | inl _ => d end).
Proof. by destruct x. Qed.

Lemma Some_intro {A} (o : option A) (d : A) :
  match o with Some _ => True | None => False end → o = Some (default d o).
Proof. by destruct o. Qed.

(** ** Text slices *)

Lemma str_take_length n s : (String.length (str_take n s) ≤ n)%nat.
Proof.
  revert s. induction n as [|n IH]; intros [|c s]; simpl; try lia.
  specialize (IH s). lia.
Qed.

Lemma str_slice_to_length s stop :
  0 ≤ stop → Z.of_nat (String.length (str_slice_to s stop)) ≤ stop.
Proof.
  intros Hstop. unfold str_slice_to.
  rewrite (proj2 (Z.ltb_ge _ _) Hstop).
  pose proof (str_take_length (Z.to_nat stop) s). lia.
Qed.

Lemma str_slice_to_500 s : (String.length (str_slice_to s 500) ≤ 500)%nat.
Proof. pose proof (str_slice_to_length s 500). lia. Qed.

(** ** Comment selector *)

#[local] Arguments comment_entry : simpl never.
#[local] Arguments flatten_comment : simpl never.
#[local] Arguments build_post_data : simpl never.

Lemma negb_is_automoderator c :
  negb (is_automoderator c) = bool_decide (eligible c).
Proof.
  unfold is_automoderator.
  destruct (decide (eligible c)) as [Hc|Hc].
  - rewrite (bool_decide_true (eligible c)) by done.
    by rewrite bool_decide_false.
  - rewrite (bool_decide_false (eligible c)) by done.
    rewrite bool_decide_true; [done|].
    by destruct (decide (lower (Comment.author_str c) = "automoderator")).
Qed.

(** The loop appends the entries of the eligible comments in their order,
    and stops behind the first that brings the list to [limit] entries:
    behind one entry at least. *)
Lemma fetch_comments_loop_spec l limit acc :
  fetch_comments_loop l limit acc =
  acc ++ (comment_entry <$>
            take (Z.to_nat (Z.max 1 (limit - Z.of_nat (length acc))))
                 (filter eligible l)).
Proof.
  revert acc. induction l as [|c l IH]; intros acc; simpl.
  { rewrite filter_nil, take_nil. simpl. by rewrite app_nil_r. }
  rewrite negb_is_automoderator, filter_cons.
  destruct (decide (eligible c)) as [Hc|Hc].
  - rewrite bool_decide_true by done.
    rewrite length_app. simpl.
    destruct (Z.leb_spec limit (Z.of_nat (length acc + 1))) as [Hle|Hgt].
    + by replace (Z.max 1 (limit - Z.of_nat (length acc))) with 1 by lia.
    + rewrite IH, length_app. simpl.
      replace (Z.to_nat (Z.max 1 (limit - Z.of_nat (length acc))))
        with (S (Z.to_nat (Z.max 1 (limit - Z.of_nat (length acc + 1))))) by lia.
      simpl. by rewrite <- app_assoc.
  - rewrite bool_decide_false by done. apply IH.
Qed.

Lemma fetch_comments_selected cl limit :
  fetch_comments cl limit =
  comment_entry <$> take (Z.to_nat (Z.max 1 limit))
                         (filter eligible (sorted_reverse Comment.score cl)).
Proof.
  unfold fetch_comments. rewrite fetch_comments_loop_spec. simpl.
  by rewrite Z.sub_0_r.
Qed.

Lemma fetch_comments_length cl limit :
  length (fetch_comments cl limit) =
  Nat.min (Z.to_nat (Z.max 1 limit)) (length (filter eligible cl)).
Proof.
  rewrite fetch_comments_selected, length_fmap, length_take.
  by rewrite filter_sorted_reverse, sorted_reverse_length.
Qed.

(** From a limit of one on, the selection has [min limit eligible] entries. *)
Lemma fetch_comments_length_pos cl limit :
  1 ≤ limit →
  Z.of_nat (length (fetch_comments cl limit)) =
  Z.min limit (Z.of_nat (length (filter eligible cl))).
Proof. intros Hlimit. rewrite fetch_comments_length. lia. Qed.

(** C2, at the limit zero: the selector still returns one entry, because
    the length is compared with the limit only after an entry is appended. *)
Example fetch_comments_limit_zero :
  fetch_comments [Sample.comment "alice" "first" 3] 0 =
    [[("comment_body", VStr "first"); ("comment_score", VInt 3)]] ∧
  length (filter eligible [Sample.comment "alice" "first" 3]) = 1%nat ∧
  length (fetch_comments Sample.thread 0) = 1%nat ∧
  ¬ (Z.of_nat (length (fetch_comments Sample.thread 0)) ≤ 0).
Proof. vm_compute. repeat split; done. Qed.

(** C5: the entries returned are those of comments of the listing whose
    author, lowercased, is not "automoderator"; the comments of that
    author have no influence on what is returned. *)
Theorem fetch_comments_excludes_automoderator cl limit :
  (∃ chosen,
     fetch_comments cl limit = comment_entry <$> chosen ∧
     chosen `sublist_of` sorted_reverse Comment.score cl ∧
     Forall (λ c, lower (Comment.author_str c) ≠ "automoderator") chosen) ∧
  fetch_comments (filter eligible cl) limit = fetch_comments cl limit.
Proof.
  split.
  - eexists. split; [apply fetch_comments_selected|]. split.
    + etrans; [apply sublist_take|apply sublist_filter].
    + apply Forall_take, Forall_forall. by intros c [Hc _]%list_elem_of_filter.
  - rewrite !fetch_comments_selected.
    by rewrite <- (filter_sorted_reverse _ eligible), list_filter_filter_l.
Qed.

(** The positions of the listing, carried through the sort. *)
Lemma enumerate_sorted_from (l : list Comment.t) k :
  let sorted := sorted_reverse (Comment.score ∘ snd) (zip (seq k (length l)) l) in
  StronglySorted ranks_before sorted ∧
  Forall (λ ic : nat * Comment.t,
            (k ≤ ic.1)%nat ∧ l !! (ic.1 - k)%nat = Some ic.2) sorted.
Proof.
  revert k. induction l as [|c l IH]; intros k; simpl.
  { split; constructor. }
  destruct (IH (S k)) as [Hs Hall]. split.
  - apply insert_desc_sorted; [| | |done].
    + intros a b [?|[? _]]; simpl; lia.
    + intros y _ Hlt. by left.
    + intros [j d] Hy Hle. rewrite Forall_forall in Hall.
      destruct (Hall _ Hy) as [Hj _]. simpl in *.
      unfold ranks_before. simpl. lia.
  - rewrite insert_desc_perm. constructor.
    + simpl. split; [lia|]. by rewrite Nat.sub_diag.
    + eapply Forall_impl; [exact Hall|]. intros [j d] [Hj Hd]. simpl in *.
      split; [lia|]. by replace (j - k)%nat with (S (j - S k)) by lia.
Qed.

Lemma enumerate_sorted (l : list Comment.t) :
  let sorted := sorted_reverse (Comment.score ∘ snd) (enumerate l) in
  StronglySorted ranks_before sorted ∧
  Forall (λ ic : nat * Comment.t, l !! ic.1 = Some ic.2) sorted ∧
  sorted.*2 = sorted_reverse Comment.score l.
Proof.
  destruct (enumerate_sorted_from l 0) as [Hs Hall]. split; [done|]. split.
  - eapply Forall_impl; [exact Hall|]. intros [j d] [_ Hd]. simpl in *.
    by rewrite Nat.sub_0_r in Hd.
  - rewrite <- sorted_reverse_fmap. unfold enumerate.
    by rewrite snd_zip by (rewrite length_seq; lia).
Qed.

(** The selection, with the position each comment has in the listing. *)
Lemma fetch_comments_positions cl limit :
  ∃ chosen : list (nat * Comment.t),
    fetch_comments cl limit = (comment_entry ∘ snd) <$> chosen ∧
    Forall (λ ic, cl !! ic.1 = Some ic.2) chosen ∧
    StronglySorted ranks_before chosen.
Proof.
  destruct (enumerate_sorted cl) as (Hs & Hall & Hsnd).
  exists (take (Z.to_nat (Z.max 1 limit))
            (filter (eligible ∘ snd)
               (sorted_reverse (Comment.score ∘ snd) (enumerate cl)))).
  split; [|split].
  - rewrite fetch_comments_selected, list_fmap_compose. f_equal.
    by rewrite fmap_take, <- filter_fmap_comp, Hsnd.
  - apply Forall_take, Forall_forall. intros ic [_ Hic]%list_elem_of_filter.
    rewrite Forall_forall in Hall. by apply Hall.
  - eapply StronglySorted_sublist; [|exact Hs].
    etrans; [apply sublist_take|apply sublist_filter].
Qed.

Lemma fetch_comments_sorted cl limit :
  StronglySorted (λ a b, entry_score b ≤ entry_score a)
                 (fetch_comments cl limit).
Proof.
  rewrite fetch_comments_selected.
  apply (StronglySorted_fmap _ (λ a b, Comment.score b ≤ Comment.score a)).
  { done. }
  eapply StronglySorted_sublist; [|apply sorted_reverse_sorted].
  etrans; [apply sublist_take|apply sublist_filter].
Qed.

(** ** Flattened records *)

Lemma comment_score_key_inj (n m : nat) :
  "comment_score_" +:+ pretty n = "comment_score_" +:+ pretty m → n = m.
Proof. intros H. by apply (inj _), (inj pretty) in H. Qed.

Lemma comment_body_key_ne_score a b :
  "comment_body_" +:+ a ≠ "comment_score_" +:+ b.
Proof. intros H. cbv [String.append] in H. discriminate H. Qed.

Lemma flatten_comment_entry i c pd :
  flatten_comment i (comment_entry c) pd =
  <["comment_score_" +:+ pretty (i + 1)%nat := VInt (Comment.score c)]>
    (<["comment_body_" +:+ pretty (i + 1)%nat :=
         VStr (str_slice_to (Comment.body c) 500)]> pd).
Proof. done. Qed.

(** The field [comment_score_n] of a record is the score of the [n]-th
    selected comment, and what the record held before beyond them. *)
Lemma flatten_from_lookup_score (chosen : list Comment.t) k pd (n : nat) :
  foldl (λ pd '(i, comment), flatten_comment i comment pd) pd
        (zip (seq k (length chosen)) (comment_entry <$> chosen))
    !! ("comment_score_" +:+ pretty n) =
  if decide (k < n ≤ k + length chosen)%nat
  then (VInt ∘ Comment.score) <$> chosen !! (n - k - 1)%nat
  else pd !! ("comment_score_" +:+ pretty n).
Proof.
  revert k pd. induction chosen as [|c chosen IH]; intros k pd.
  { simpl. case_decide; [lia|done]. }
  simpl. rewrite IH, flatten_comment_entry.
  destruct (decide (n = k + 1)%nat) as [->|Hne].
  - rewrite lookup_insert_eq.
    rewrite decide_False by lia. rewrite decide_True by lia.
    by replace (k + 1 - k - 1)%nat with 0%nat by lia.
  - rewrite lookup_insert_ne by (intros ?%comment_score_key_inj; lia).
    rewrite lookup_insert_ne by apply comment_body_key_ne_score.
    repeat case_decide; try lia; try done.
    by replace (n - k - 1)%nat with (S (n - S k - 1)) by lia.
Qed.

Lemma post_data_literal_no_comment_score E subreddit s mi x :
  add_gallery_item_count mi (post_data_literal E subreddit s mi)
    !! ("comment_score_" +:+ x) = None.
Proof.
  assert (post_data_literal E subreddit s mi !! ("comment_score_" +:+ x) = None)
    as Hlit.
  { apply not_elem_of_list_to_map_1. cbv [String.append]. simpl.
    intros Hin.
    repeat (apply elem_of_cons in Hin as [Hin|Hin]; [discriminate Hin|]).
    by apply elem_of_nil in Hin. }
  unfold add_gallery_item_count.
  destruct (mi_media_metadata mi) as [[|item items]|]; [done| |done].
  rewrite lookup_insert_ne; [done|].
  cbv [String.append]. discriminate.
Qed.

Lemma build_post_data_comment_score E limit subreddit s cl pd (n : nat) :
  Submission.comments s = inr cl →
  build_post_data E limit subreddit s = inr pd →
  pd !! ("comment_score_" +:+ pretty n) =
  (VInt ∘ Comment.score) <$>
    (if decide (0 < n)%nat
     then take (Z.to_nat (Z.max 1 limit))
               (filter eligible (sorted_reverse Comment.score cl)) !! (n - 1)%nat
     else None).
Proof.
  unfold build_post_data. intros Hcl Hpd.
  destruct (get_media_info E s) as [|mi]; [done|].
  rewrite Hcl in Hpd. injection Hpd as <-.
  rewrite fetch_comments_selected. unfold flatten_comments, enumerate.
  rewrite length_fmap, flatten_from_lookup_score.
  rewrite post_data_literal_no_comment_score.
  case_decide as Hn.
  - rewrite decide_True by lia. by replace (n - 0 - 1)%nat with (n - 1)%nat by lia.
  - case_decide; [|done]. symmetry. apply fmap_None, lookup_ge_None_2. lia.
Qed.

(** C6: the scores of the entries returned do not increase; the entries are
    those of comments at positions of the listing such that, of two entries,
    the first has the larger score or the same score and the earlier
    position; and in a record built from a submission with these comments
    the fields [comment_score_i] hold integers that do not increase in [i]. *)
Theorem fetch_comments_scores_descending cl limit :
  StronglySorted (λ a b, entry_score b ≤ entry_score a)
                 (fetch_comments cl limit) ∧
  (∃ chosen : list (nat * Comment.t),
     fetch_comments cl limit = (comment_entry ∘ snd) <$> chosen ∧
     Forall (λ ic, cl !! ic.1 = Some ic.2) chosen ∧
     StronglySorted ranks_before chosen) ∧
  (∀ E subreddit s pd (i j : nat) a b,
     Submission.comments s = inr cl →
     build_post_data E limit subreddit s = inr pd →
     (i < j)%nat →
     pd !! ("comment_score_" +:+ pretty i) = Some a →
     pd !! ("comment_score_" +:+ pretty j) = Some b →
     ∃ x y, a = VInt x ∧ b = VInt y ∧ y ≤ x).
Proof.
  split; [apply fetch_comments_sorted|].
  split; [apply fetch_comments_positions|].
  intros E subreddit s pd i j a b Hcl Hpd Hij Ha Hb.
  rewrite (build_post_data_comment_score _ _ _ _ _ _ i Hcl Hpd) in Ha.
  rewrite (build_post_data_comment_score _ _ _ _ _ _ j Hcl Hpd) in Hb.
  destruct (decide (0 < i)%nat); [|done].
  rewrite decide_True in Hb by lia.
  apply fmap_Some in Ha as (ci & Hi & ->). apply fmap_Some in Hb as (cj & Hj & ->).
  exists (Comment.score ci), (Comment.score cj). split; [done|]. split; [done|].
  eapply (StronglySorted_lookup_lt (λ a b, Comment.score b ≤ Comment.score a));
    [|exact Hi|exact Hj|lia].
  eapply StronglySorted_sublist; [|apply sorted_reverse_sorted].
  etrans; [apply sublist_take|apply sublist_filter].
Qed.

Lemma fetch_comments_scores_descending_witness :
  build_post_data Sample.env 3 "B" Sample.b1 = inr (Sample.built "B" Sample.b1) ∧
  Sample.built "B" Sample.b1 !! "comment_score_2" = Some (VInt 7) ∧
  Sample.built "B" Sample.b1 !! "comment_score_3" = Some (VInt 3) ∧
  ∃ x y, VInt 7 = VInt x ∧ VInt 3 = VInt y ∧ y ≤ x.
Proof.
  assert (build_post_data Sample.env 3 "B" Sample.b1 =
          inr (Sample.built "B" Sample.b1)) as Hbuilt.
  { unfold Sample.built. apply inr_intro. vm_compute. exact I. }
  split; [exact Hbuilt|].
  split; [vm_compute; reflexivity|]. split; [vm_compute; reflexivity|].
  apply (proj2 (proj2 (fetch_comments_scores_descending Sample.thread 3))
           Sample.env "B" Sample.b1 (Sample.built "B" Sample.b1) 2%nat 3%nat).
  - reflexivity.
  - exact Hbuilt.
  - lia.
  - vm_compute; reflexivity.
  - vm_compute; reflexivity.
Defined.

(** ** Length of the text bodies *)

Ltac not_body_key H :=
  destruct H as [H|H]; [discriminate H | vm_compute in H; discriminate H].

Lemma post_data_literal_bounded E subreddit s mi :
  bodies_bounded (post_data_literal E subreddit s mi).
Proof.
  intros key v Hlook Hkey. unfold post_data_literal in Hlook.
  apply elem_of_list_to_map_2 in Hlook.
  repeat (apply elem_of_cons in Hlook as [Hlook|Hlook];
          [injection Hlook as -> ->; try (exfalso; by not_body_key Hkey)|]).
  - eexists. split; [done|]. apply str_slice_to_500.
  - by apply elem_of_nil in Hlook.
Qed.

Lemma add_gallery_item_count_bounded mi pd :
  bodies_bounded pd → bodies_bounded (add_gallery_item_count mi pd).
Proof.
  intros Hpd. unfold add_gallery_item_count.
  destruct (mi_media_metadata mi) as [[|item items]|]; try done.
  intros key v Hlook Hkey.
  apply lookup_insert_Some in Hlook as [[<- _]|[_ Hlook]]; [|by eapply Hpd].
  exfalso. by not_body_key Hkey.
Qed.

Lemma flatten_comment_bounded i c pd :
  bodies_bounded pd → bodies_bounded (flatten_comment i (comment_entry c) pd).
Proof.
  intros Hpd key v Hlook Hkey. rewrite flatten_comment_entry in Hlook.
  apply lookup_insert_Some in Hlook as [[<- _]|[_ Hlook]].
  { exfalso. by not_body_key Hkey. }
  apply lookup_insert_Some in Hlook as [[_ <-]|[_ Hlook]]; [|by eapply Hpd].
  eexists. split; [done|]. apply str_slice_to_500.
Qed.

Lemma flatten_from_bounded (chosen : list Comment.t) k pd :
  bodies_bounded pd →
  bodies_bounded
    (foldl (λ pd '(i, comment), flatten_comment i comment pd) pd
           (zip (seq k (length chosen)) (comment_entry <$> chosen))).
Proof.
  revert k pd. induction chosen as [|c chosen IH]; intros k pd Hpd; [done|].
  simpl. apply IH. by apply flatten_comment_bounded.
Qed.

Lemma flatten_comments_bounded cl limit pd :
  bodies_bounded pd →
  bodies_bounded (flatten_comments (fetch_comments cl limit) pd).
Proof.
  intros Hpd. rewrite fetch_comments_selected.
  unfold flatten_comments, enumerate. rewrite length_fmap.
  by apply flatten_from_bounded.
Qed.

Lemma build_post_data_bounded E limit subreddit s pd :
  build_post_data E limit subreddit s = inr pd → bodies_bounded pd.
Proof.
  unfold build_post_data. intros Hpd.
  destruct (get_media_info E s) as [|mi]; [done|].
  destruct (Submission.comments s) as [|cl]; [done|].
  injection Hpd as <-. apply flatten_comments_bounded.
  apply add_gallery_item_count_bounded, post_data_literal_bounded.
Qed.

(** ** Forum page walker *)

Lemma extend_nil st : extend st [] [] = st.
Proof. destruct st. unfold extend. simpl. by rewrite !app_nil_r. Qed.

Section Walk.
Context (E : env) (start_date end_date comment_limit : Z) (subreddit : string).

Local Abbreviation walk' := (walk E start_date end_date comment_limit subreddit).
Local Abbreviation empty := {| all_posts := []; effects := [] |}.

(** The walk only appends: its outcome from any state is its outcome from
    the empty state, put behind what the state holds. *)
Lemma walk_frame l st :
  walk' l st =
  (extend st (all_posts (walk' l empty).1) (effects (walk' l empty).1),
   (walk' l empty).2).
Proof.
  revert st. induction l as [|[e|s] l IH]; intros st; simpl.
  - by rewrite extend_nil.
  - by rewrite extend_nil.
  - destruct (Submission.created s <? start_date); [by rewrite extend_nil|].
    destruct (end_date <? Submission.created s); [apply IH|].
    destruct (build_post_data E comment_limit subreddit s) as [e|pd].
    { by rewrite extend_nil. }
    rewrite (IH (sleep 100 (append_post pd st))).
    rewrite (IH (sleep 100 (append_post pd empty))).
    unfold extend, sleep, append_post. simpl.
    by rewrite <- !app_assoc.
Qed.

(** Nothing behind the point where the walk ended by a raise is looked at. *)
Lemma walk_app_raised pre rest st :
  (walk' pre st).2 ≠ None → walk' (pre ++ rest) st = walk' pre st.
Proof.
  revert st. induction pre as [|[e|s] pre IH]; intros st; simpl; try done.
  destruct (Submission.created s <? start_date); [done|].
  destruct (end_date <? Submission.created s); [apply IH|].
  destruct (build_post_data E comment_limit subreddit s) as [e|pd]; [done|].
  apply IH.
Qed.



Lemma walk_no_file_event l st :
  Forall (λ ev, ¬ is_file_event ev) (effects st) →
  Forall (λ ev, ¬ is_file_event ev) (effects (walk' l st).1).
Proof.
  revert st. induction l as [|[e|s] l IH]; intros st Hst; simpl; try done.
  destruct (Submission.created s <? start_date); [done|].
  destruct (end_date <? Submission.created s); [by apply IH|].
  destruct (build_post_data E comment_limit subreddit s) as [e|pd]; [done|].
  apply IH. simpl. apply Forall_app. split; [done|].
  apply Forall_singleton. by intros [].
Qed.

Lemma walk_bounded l st :
  Forall bodies_bounded (all_posts st) →
  Forall bodies_bounded (all_posts (walk' l st).1).
Proof.
  revert st. induction l as [|[e|s] l IH]; intros st Hst; simpl; try done.
  destruct (Submission.created s <? start_date); [done|].
  destruct (end_date <? Submission.created s); [by apply IH|].
  destruct (build_post_data E comment_limit subreddit s) as [e|pd] eqn:Hpd;
    [done|].
  apply IH. simpl. apply Forall_app. split; [done|].
  constructor; [|done]. by eapply build_post_data_bounded.
Qed.
End Walk.






(** The listing of forum "B" holds a recent submission behind an older
    one: the walk never reaches it. *)
Example walk_sample_listing :
  filter (in_window Sample.env 1) [Sample.b0; Sample.b1; Sample.b2; Sample.b3] =
    [Sample.b1; Sample.b2] ∧
  (walk Sample.env (start_of Sample.env 1) (now Sample.env) 3 "B"
        (Sample.listing_of "B") Sample.empty).1 =
  (walk Sample.env (start_of Sample.env 1) (now Sample.env) 3 "B"
        [inr Sample.b1; inr Sample.b2] Sample.empty).1.
Proof. split; vm_compute; reflexivity. Qed.

(** With a negative number of months the start lies after [now]: a
    submission of day 101 is newer than the end, day 100, and older than
    the start, day 130, and the walk ends at it. *)
Example walk_negative_months :
  walk Sample.env (start_of Sample.env (-1)) (now Sample.env) 3 "B"
       [inr Sample.b0; inl Sample.rate_limited] Sample.empty =
  (Sample.empty, None).
Proof. vm_compute. reflexivity. Qed.


(** ** Loop over the forums *)

Lemma handler_effects_429 subreddit msg :
  handler_effects subreddit (ResponseException 429 msg) =
  [Log WARNING ("Rate limit reached for r/" +:+ subreddit +:+
                ". Waiting for 60 seconds before retrying...");
   Sleep 60000].
Proof. done. Qed.

Lemma outcome_effects_no_file_event subreddit raised :
  Forall (λ ev, ¬ is_file_event ev) (outcome_effects subreddit raised).
Proof.
  destruct raised as [[code msg|msg]|]; simpl;
    [destruct (code =? 429)|..]; repeat constructor; by intros [].
Qed.

Lemma outcome_effects_logged subreddit raised :
  forum_logged subreddit (outcome_effects subreddit raised).
Proof.
  unfold forum_logged.
  destruct raised as [[code msg|msg]|]; simpl; [destruct (code =? 429)|..].
  - right. left. apply elem_of_cons. by left.
  - right. right. eexists (ResponseException code msg). apply elem_of_cons. by left.
  - right. right. eexists (Exception msg). apply elem_of_cons. by left.
  - left. apply elem_of_cons. by left.
Qed.

Lemma forum_logged_subseteq subreddit evs evs' :
  evs ⊆ evs' → forum_logged subreddit evs → forum_logged subreddit evs'.
Proof.
  unfold forum_logged. intros Hsub [H|[H|[e H]]];
    [left|right; left|right; right; exists e]; by apply Hsub.
Qed.

Section Forums.
Context (E : env) (comment_limit months : Z).

Local Abbreviation walk_forum :=
  (λ subreddit, walk E (start_of E months) (now E) comment_limit subreddit
                     (reddit_new E subreddit)).
Local Abbreviation fetch_one :=
  (fetch_subreddit E (start_of E months) (now E) comment_limit).
Local Abbreviation fetch_all := (fetch_subreddits E comment_limit months).

(** The [try] statement always hands a state on: that of the walk, with
    the effects of the way it ended. *)
Lemma fetch_subreddit_outcome st subreddit :
  fetch_one st subreddit =
  extend (walk_forum subreddit st).1 []
         (outcome_effects subreddit (walk_forum subreddit st).2).
Proof.
  unfold fetch_subreddit.
  destruct (walk_forum subreddit st) as [st' [[code msg|msg]|]]; simpl;
    [destruct (code =? 429)|..];
    unfold extend, log, sleep; simpl; rewrite ?app_nil_r, <- ?app_assoc; done.
Qed.

Lemma fetch_subreddit_posts st subreddit :
  all_posts (fetch_one st subreddit) =
  all_posts st ++ forum_posts E comment_limit months subreddit.
Proof.
  rewrite fetch_subreddit_outcome, walk_frame. simpl.
  by rewrite app_nil_r.
Qed.

Lemma fetch_subreddit_effects st subreddit :
  ∃ evs, effects (fetch_one st subreddit) =
         effects st ++ evs ++ outcome_effects subreddit (walk_forum subreddit st).2.
Proof.
  rewrite fetch_subreddit_outcome, walk_frame. simpl.
  eexists. by rewrite <- app_assoc.
Qed.

Lemma fetch_subreddits_cons st subreddit subreddits :
  fetch_all (subreddit :: subreddits) st =
  fetch_all subreddits (fetch_one st subreddit).
Proof. done. Qed.

Lemma fetch_subreddits_app st before after :
  fetch_all (before ++ after) st = fetch_all after (fetch_all before st).
Proof. apply foldl_app. Qed.

(** Each forum contributes the records of its own walk, whatever happened
    to the forums before it. *)
Lemma fetch_subreddits_posts subreddits st :
  all_posts (fetch_all subreddits st) =
  all_posts st ++ concat (forum_posts E comment_limit months <$> subreddits).
Proof.
  revert st. induction subreddits as [|s subreddits IH]; intros st.
  { simpl. by rewrite app_nil_r. }
  rewrite fetch_subreddits_cons, IH, fetch_subreddit_posts. csimpl.
  by rewrite <- app_assoc.
Qed.

Lemma fetch_subreddits_effects_prefix subreddits st :
  effects st `prefix_of` effects (fetch_all subreddits st).
Proof.
  revert st. induction subreddits as [|s subreddits IH]; intros st; [done|].
  rewrite fetch_subreddits_cons. etrans; [|apply IH].
  destruct (fetch_subreddit_effects st s) as [evs ->]. by apply prefix_app_r.
Qed.

Lemma fetch_subreddits_logged subreddits st s :
  s ∈ subreddits → forum_logged s (effects (fetch_all subreddits st)).
Proof.
  revert st. induction subreddits as [|s' subreddits IH]; intros st Hs.
  { by apply elem_of_nil in Hs. }
  rewrite fetch_subreddits_cons.
  apply elem_of_cons in Hs as [->|Hs]; [|by apply IH].
  destruct (fetch_subreddits_effects_prefix subreddits (fetch_one st s'))
    as [evs' ->].
  destruct (fetch_subreddit_effects st s') as [evs ->].
  eapply forum_logged_subseteq; [|apply outcome_effects_logged].
  intros ev Hev. rewrite !elem_of_app. eauto.
Qed.

Lemma fetch_subreddits_no_file_event subreddits st :
  Forall (λ ev, ¬ is_file_event ev) (effects st) →
  Forall (λ ev, ¬ is_file_event ev) (effects (fetch_all subreddits st)).
Proof.
  revert st. induction subreddits as [|s subreddits IH]; intros st Hst; [done|].
  rewrite fetch_subreddits_cons. apply IH.
  rewrite fetch_subreddit_outcome. simpl. apply Forall_app. split.
  - by apply walk_no_file_event.
  - apply outcome_effects_no_file_event.
Qed.

Lemma fetch_subreddits_bounded subreddits st :
  Forall bodies_bounded (all_posts st) →
  Forall bodies_bounded (all_posts (fetch_all subreddits st)).
Proof.
  revert st. induction subreddits as [|s subreddits IH]; intros st Hst; [done|].
  rewrite fetch_subreddits_cons. apply IH.
  rewrite fetch_subreddit_outcome. simpl. rewrite app_nil_r.
  by apply walk_bounded.
Qed.

(** C4: when the walk of a forum ends by a raise, with the forums [before]
    it done and the forums [after] it to come, the [try] statement hands on
    the state the walk reached, with the effects of the handler: for a
    response of status 429 a warning and a sleep of 60 seconds; nothing of
    the listing behind the raise is looked at; the loop goes on with the
    forums that follow, each of which leaves its line in the log and
    contributes the records of its own walk; and every record held before
    is kept. *)
Theorem forum_failure_isolated before subreddit after st e :
  (walk_forum subreddit (fetch_all before st)).2 = Some e →
  fetch_one (fetch_all before st) subreddit =
    extend (walk_forum subreddit (fetch_all before st)).1 []
           (handler_effects subreddit e) ∧
  (∀ msg, e = ResponseException 429 msg →
     handler_effects subreddit e =
     [Log WARNING ("Rate limit reached for r/" +:+ subreddit +:+
                   ". Waiting for 60 seconds before retrying...");
      Sleep 60000]) ∧
  (∀ pre rest,
     reddit_new E subreddit = pre ++ rest →
     (walk E (start_of E months) (now E) comment_limit subreddit pre
           (fetch_all before st)).2 ≠ None →
     walk_forum subreddit (fetch_all before st) =
     walk E (start_of E months) (now E) comment_limit subreddit pre
          (fetch_all before st)) ∧
  fetch_all (before ++ subreddit :: after) st =
    fetch_all after (fetch_one (fetch_all before st) subreddit) ∧
  all_posts (fetch_all before st)
    `prefix_of` all_posts (fetch_one (fetch_all before st) subreddit) ∧
  all_posts (fetch_all (before ++ subreddit :: after) st) =
    all_posts (fetch_one (fetch_all before st) subreddit) ++
    concat (forum_posts E comment_limit months <$> after) ∧
  (∀ s, s ∈ after →
     forum_logged s (effects (fetch_all (before ++ subreddit :: after) st))).
Proof.
  intros Hraised. split; [|split; [|split; [|split; [|split; [|split]]]]].
  - by rewrite fetch_subreddit_outcome, Hraised.
  - intros msg ->. apply handler_effects_429.
  - intros pre rest -> Hpre. by apply walk_app_raised.
  - by rewrite fetch_subreddits_app, fetch_subreddits_cons.
  - rewrite fetch_subreddit_posts. by apply prefix_app_r.
  - rewrite fetch_subreddits_app, fetch_subreddits_cons.
    apply fetch_subreddits_posts.
  - intros s Hs. rewrite fetch_subreddits_app, fetch_subreddits_cons.
    by apply fetch_subreddits_logged.
Qed.
End Forums.

Lemma forum_failure_isolated_witness :
  (walk Sample.env (start_of Sample.env 1) (now Sample.env) 3 "A"
        (reddit_new Sample.env "A")
        (fetch_subreddits Sample.env 3 1 [] Sample.empty)).2 =
    Some Sample.rate_limited ∧
  all_posts (fetch_subreddits Sample.env 3 1 ([] ++ "A" :: ["B"]) Sample.empty) =
    all_posts (fetch_subreddit Sample.env (start_of Sample.env 1)
                 (now Sample.env) 3
                 (fetch_subreddits Sample.env 3 1 [] Sample.empty) "A") ++
    concat (forum_posts Sample.env 3 1 <$> ["B"]) ∧
  forum_logged "B"
    (effects (fetch_subreddits Sample.env 3 1 ([] ++ "A" :: ["B"]) Sample.empty)).
Proof.
  split; [vm_compute; reflexivity|].
  destruct (forum_failure_isolated Sample.env 3 1 [] "A" ["B"] Sample.empty
              Sample.rate_limited) as (_ & _ & _ & _ & _ & Hposts & Hlog).
  { vm_compute; reflexivity. }
  split; [exact Hposts|]. apply Hlog, elem_of_cons. by left.
Defined.

(** The run of the sample: forum "A" gives one record before its 429,
    forum "B" is walked all the same and gives two. *)
Example fetch_sample_forums :
  let st := fetch_posts_from_subreddits Sample.env ["A"; "B"] 3 1 in
  (λ pd, pd !! "post_id") <$> all_posts st =
    [Some (VStr "a1"); Some (VStr "b1"); Some (VStr "b2")] ∧
  effects st =
    [Sleep 100;
     Log WARNING "Rate limit reached for r/A. Waiting for 60 seconds before retrying...";
     Sleep 60000;
     Sleep 100; Sleep 100;
     Log INFO "Fetched posts from r/B"].
Proof. split; vm_compute; reflexivity. Qed.

(** ** Aggregator and exporter *)

Lemma slice_to_length {A} (l : list A) stop :
  0 ≤ stop → Z.of_nat (length (slice_to l stop)) = Z.min stop (Z.of_nat (length l)).
Proof.
  intros Hstop. unfold slice_to. rewrite (proj2 (Z.ltb_ge _ _) Hstop).
  rewrite length_take. lia.
Qed.

Lemma slice_to_take_drop {A} (l : list A) stop :
  ∃ n, slice_to l stop = take n l.
Proof. unfold slice_to. destruct (stop <? 0); eauto. Qed.

(** C3, for a [post_limit] that is not negative: the exported rows number
    [min post_limit total]; they are in descending order of score; and they
    are rows of the collection such that no row left out has a larger score
    than a row exported. *)
Theorem top_posts_ranked posts limit :
  0 ≤ limit →
  Z.of_nat (length (top_posts posts limit)) = Z.min limit (Z.of_nat (length posts)) ∧
  StronglySorted (λ a b, post_score b ≤ post_score a) (top_posts posts limit) ∧
  ∃ rest, top_posts posts limit ++ rest ≡ₚ posts ∧
          ∀ a b, a ∈ top_posts posts limit → b ∈ rest →
                 post_score b ≤ post_score a.
Proof.
  intros Hlimit. unfold top_posts. split; [|split].
  - by rewrite slice_to_length, sorted_reverse_length.
  - destruct (slice_to_take_drop (sorted_reverse post_score posts) limit)
      as [n ->].
    eapply StronglySorted_sublist; [apply sublist_take|].
    apply sorted_reverse_sorted.
  - destruct (slice_to_take_drop (sorted_reverse post_score posts) limit)
      as [n ->].
    exists (drop n (sorted_reverse post_score posts)). split.
    + by rewrite take_drop, sorted_reverse_perm.
    + intros a b Ha Hb.
      pose proof (sorted_reverse_sorted post_score posts) as Hs.
      rewrite <- (take_drop n (sorted_reverse post_score posts)) in Hs.
      by apply (StronglySorted_app_1_elem_of _ _ _ _ _ Hs).
Qed.

Lemma top_posts_ranked_witness :
  0 ≤ 2 ∧
  Z.of_nat (length (top_posts [Sample.record 5; Sample.record 9; Sample.record 7] 2)) =
    Z.min 2 (Z.of_nat (length [Sample.record 5; Sample.record 9; Sample.record 7])).
Proof.
  split; [lia|].
  apply (top_posts_ranked [Sample.record 5; Sample.record 9; Sample.record 7] 2).
  lia.
Defined.

Example top_posts_sample :
  top_posts [Sample.record 5; Sample.record 9; Sample.record 7] 2 =
    [Sample.record 9; Sample.record 7].
Proof. vm_compute. reflexivity. Qed.

(** C3 as stated, at a negative [post_limit]: the slice [all_posts[:-1]]
    drops the last row only, so of three rows two are exported. *)
Lemma top_posts_negative_limit :
  top_posts [Sample.record 5; Sample.record 9; Sample.record 7] (-1) =
    [Sample.record 9; Sample.record 7] ∧
  ¬ (Z.of_nat (length (top_posts [Sample.record 5; Sample.record 9; Sample.record 7] (-1)))
     = Z.min (-1) (Z.of_nat (length [Sample.record 5; Sample.record 9; Sample.record 7]))) ∧
  ¬ (Z.of_nat (length (top_posts [Sample.record 5; Sample.record 9; Sample.record 7] (-1)))
     ≤ -1).
Proof.
  split; [vm_compute; reflexivity|]. split.
  - vm_compute. discriminate.
  - intros Hle. vm_compute in Hle. by apply Hle.
Qed.

Lemma fetch_posts_no_file_event E subreddits comment_limit months :
  Forall (λ ev, ¬ is_file_event ev)
         (effects (fetch_posts_from_subreddits E subreddits comment_limit months)).
Proof. by apply fetch_subreddits_no_file_event. Qed.

Lemma fetch_posts_bounded E subreddits comment_limit months :
  Forall bodies_bounded
         (all_posts (fetch_posts_from_subreddits E subreddits comment_limit months)).
Proof. by apply fetch_subreddits_bounded. Qed.

Lemma top_posts_subseteq posts limit : top_posts posts limit ⊆ posts.
Proof.
  unfold top_posts.
  destruct (slice_to_take_drop (sorted_reverse post_score posts) limit) as [n ->].
  intros pd Hpd. rewrite <- (sorted_reverse_perm post_score posts).
  by eapply sublist_subseteq; [apply sublist_take|].
Qed.


Lemma main_rows E cfg filename rows :
  ToCsv filename rows ∈ main E cfg →
  rows = top_posts (all_posts (fetch_posts_from_subreddits E (subreddits cfg)
                                 (comment_limit cfg) (months cfg)))
                   (post_limit cfg).
Proof.
  unfold main. intros Hin.
  pose proof (fetch_posts_no_file_event E (subreddits cfg) (comment_limit cfg)
                                        (months cfg)) as Hno.
  rewrite Forall_forall in Hno.
  destruct (all_posts _) as [|pd posts].
  - apply elem_of_cons in Hin as [Hin|Hin]; [done|].
    apply elem_of_app in Hin as [Hin|Hin]; [by destruct (Hno _ Hin)|].
    by apply list_elem_of_singleton in Hin.
  - apply elem_of_cons in Hin as [Hin|Hin]; [done|].
    apply elem_of_app in Hin as [Hin|Hin]; [by destruct (Hno _ Hin)|].
    apply elem_of_cons in Hin as [Hin|Hin]; [done|].
    apply elem_of_cons in Hin as [Hin|Hin]; [by injection Hin as _ ->|].
    destruct (to_csv E _ _); simpl in Hin;
      repeat (apply elem_of_cons in Hin as [Hin|Hin]; [done|]);
      by apply elem_of_nil in Hin.
Qed.

(** C7: in a record the fetch collects, and in a row the export writes,
    the field [selftext] and every field [comment_body_...] holds a text of
    at most 500 characters. *)
Theorem record_bodies_at_most_500 E cfg pd key v :
  pd ∈ all_posts (fetch_posts_from_subreddits E (subreddits cfg)
                    (comment_limit cfg) (months cfg)) ∨
  (∃ filename rows, ToCsv filename rows ∈ main E cfg ∧ pd ∈ rows) →
  pd !! key = Some v →
  key = "selftext" ∨ String.prefix "comment_body_" key = true →
  ∃ s, v = VStr s ∧ (String.length s ≤ 500)%nat.
Proof.
  intros Hpd Hlook Hkey.
  pose proof (fetch_posts_bounded E (subreddits cfg) (comment_limit cfg)
                                  (months cfg)) as Hall.
  rewrite Forall_forall in Hall.
  assert (bodies_bounded pd) as Hb; [|by eapply Hb].
  destruct Hpd as [Hpd|(filename & rows & Hrows & Hpd)]; [by apply Hall|].
  apply main_rows in Hrows as ->. by apply Hall, (top_posts_subseteq _ _ _ Hpd).
Qed.

(** A body of 600 characters is cut to its first 500. *)
Example long_body_truncated :
  String.length Sample.long_text = 600%nat ∧
  (λ d, from_option (λ v, match v with VStr s => String.length s | _ => 0%nat end)
                    0%nat (dict_get "comment_body" d))
    <$> fetch_comments [Sample.comment "dave" Sample.long_text 8] 10 = [500%nat].
Proof. split; vm_compute; reflexivity. Qed.

Lemma record_bodies_at_most_500_witness :
  Sample.first_record
    ∈ all_posts (fetch_posts_from_subreddits Sample.env
                   (subreddits Sample.cfg) (comment_limit Sample.cfg)
                   (months Sample.cfg)) ∧
  Sample.first_record !! "comment_body_1" = Some (VStr "second") ∧
  ∃ s, VStr "second" = VStr s ∧ (String.length s ≤ 500)%nat.
Proof.
  assert (Sample.first_record
            ∈ all_posts (fetch_posts_from_subreddits Sample.env
                           (subreddits Sample.cfg) (comment_limit Sample.cfg)
                           (months Sample.cfg))) as Hin.
  { apply (list_elem_of_lookup_2 _ 0%nat). unfold Sample.first_record.
    apply Some_intro. vm_compute. exact I. }
  split; [exact Hin|]. split; [vm_compute; reflexivity|].
  apply (record_bodies_at_most_500 Sample.env Sample.cfg
           Sample.first_record "comment_body_1").
  - by left.
  - vm_compute. reflexivity.
  - right. vm_compute. reflexivity.
Defined.

(** C8: when the fetch collects no record, [main] logs the warning behind
    the effects of the fetch and ends: it makes no directory and writes no
    file. *)
Theorem main_without_data E cfg :
  all_posts (fetch_posts_from_subreddits E (subreddits cfg) (comment_limit cfg)
                                         (months cfg)) = [] →
  main E cfg =
    Log INFO ("Starting data collection for top " +:+ pretty (post_limit cfg) +:+
              " posts in the past " +:+ pretty (months cfg) +:+
              " months from all specified subreddits...") ::
    effects (fetch_posts_from_subreddits E (subreddits cfg) (comment_limit cfg)
                                         (months cfg)) ++
    [Log WARNING "No data collected. Exiting."] ∧
  (∀ path, Mkdir path ∉ main E cfg) ∧
  (∀ filename rows, ToCsv filename rows ∉ main E cfg).
Proof.
  intros Hposts.
  assert (main E cfg =
    Log INFO ("Starting data collection for top " +:+ pretty (post_limit cfg) +:+
              " posts in the past " +:+ pretty (months cfg) +:+
              " months from all specified subreddits...") ::
    effects (fetch_posts_from_subreddits E (subreddits cfg) (comment_limit cfg)
                                         (months cfg)) ++
    [Log WARNING "No data collected. Exiting."]) as Hmain.
  { unfold main. by rewrite Hposts. }
  pose proof (fetch_posts_no_file_event E (subreddits cfg) (comment_limit cfg)
                                        (months cfg)) as Hno.
  rewrite Forall_forall in Hno.
  split; [exact Hmain|]. rewrite Hmain.
  split; [intros path Hin|intros filename rows Hin];
    (apply elem_of_cons in Hin as [Hin|Hin]; [done|];
     apply elem_of_app in Hin as [Hin|Hin]; [by destruct (Hno _ Hin)|];
     by apply list_elem_of_singleton in Hin).
Qed.

Lemma main_without_data_witness :
  all_posts (fetch_posts_from_subreddits Sample.env (subreddits Sample.quiet_cfg)
               (comment_limit Sample.quiet_cfg) (months Sample.quiet_cfg)) = [] ∧
  (∀ path, Mkdir path ∉ main Sample.env Sample.quiet_cfg) ∧
  (∀ filename rows, ToCsv filename rows ∉ main Sample.env Sample.quiet_cfg).
Proof.
  split; [vm_compute; reflexivity|].
  apply (main_without_data Sample.env Sample.quiet_cfg).
  vm_compute. reflexivity.
Defined.

Example main_quiet_run :
  main Sample.env Sample.quiet_cfg =
    [Log INFO "Starting data collection for top 2 posts in the past 1 months from all specified subreddits...";
     Log INFO "Fetched posts from r/C";
     Log WARNING "No data collected. Exiting."].
Proof. vm_compute. reflexivity. Qed.

(** ** Media classifier *)

Lemma existsb_image_extensions path :
  existsb (endswith (lower path)) image_extensions = true ↔
  has_image_extension path.
Proof.
  unfold has_image_extension, image_extensions. rewrite existsb_exists.
  split; intros (ext & Hext & Hends); exists ext;
    (split; [by apply list_elem_of_In|done]).
Qed.

Lemma empty_path_no_image_extension : ¬ has_image_extension "".
Proof.
  intros (ext & Hext & Hends).
  repeat (apply elem_of_cons in Hext as [->|Hext]; [discriminate Hends|]).
  by apply elem_of_nil in Hext.
Qed.

Lemma flag_truthy_Some_true (f : option bool) :
  flag_truthy f = true ↔ f = Some true.
Proof. destruct f as [[|]|]; simpl; split; congruence. Qed.

Lemma media_gallery_video_image s mi :
  has_image (media_gallery s (media_video s mi)) =
    flag_truthy (Submission.is_gallery s) || has_image mi ∧
  image_url (media_gallery s (media_video s mi)) = image_url mi.
Proof.
  unfold media_gallery, media_video.
  by destruct (flag_truthy (Submission.is_gallery s)),
              (flag_truthy (Submission.is_video s)), (has_image mi).
Qed.

(** The classifier returns whenever the URL, if there is one, parses. *)
Lemma get_media_info_returns E s :
  (Submission.url s ≠ "" → ∃ path, urlparse_path E (Submission.url s) = inr path) →
  ∃ mi, get_media_info E s = inr mi.
Proof.
  intros Hparse. unfold get_media_info, media_image, str_truthy, is_image_url.
  case_bool_decide as Hurl; [eexists; reflexivity|].
  destruct (Hparse Hurl) as [path ->].
  destruct (existsb (endswith (lower path)) image_extensions);
    eexists; reflexivity.
Qed.

(** C9: for a submission whose URL parses, the classifier returns, with
    [has_image] set exactly when the path of the URL ends, lowercased, with
    one of [.jpg], [.jpeg], [.png], [.gif] or the flag [is_gallery] is there
    and true; [image_url] is the URL in the first case and null otherwise. *)
Theorem media_classifier_image E s path :
  urlparse_path E "" = inr "" →
  urlparse_path E (Submission.url s) = inr path →
  ∃ mi, get_media_info E s = inr mi ∧
    (has_image mi = true ↔
       has_image_extension path ∨ Submission.is_gallery s = Some true) ∧
    (image_url mi = VStr (Submission.url s) ↔ has_image_extension path) ∧
    (image_url mi = VNone ↔ ¬ has_image_extension path).
Proof.
  intros Hempty Hpath.
  unfold get_media_info, media_image, str_truthy, is_image_url.
  case_bool_decide as Hurl.
  - rewrite Hurl, Hempty in Hpath. injection Hpath as <-.
    pose proof empty_path_no_image_extension as Hno.
    eexists. split; [reflexivity|].
    destruct (media_gallery_video_image s
                {| has_image := false; has_video := false; image_url := VNone;
                   video_url := VNone; mi_media_metadata := None |})
      as [-> ->]. simpl.
    rewrite orb_false_r, flag_truthy_Some_true. intuition done.
  - rewrite Hpath.
    pose proof (existsb_image_extensions path) as Hext.
    destruct (existsb (endswith (lower path)) image_extensions);
      (eexists; split; [reflexivity|]);
      match goal with
      | |- context [media_gallery s (media_video s ?mi)] =>
          destruct (media_gallery_video_image s mi) as [-> ->]
      end; simpl.
    + rewrite orb_true_r. intuition done.
    + rewrite orb_false_r, flag_truthy_Some_true.
      assert (¬ has_image_extension path) by (intros ?%Hext; done).
      intuition done.
Qed.

Lemma media_classifier_image_witness :
  urlparse_path Sample.env "" = inr "" ∧
  urlparse_path Sample.env (Submission.url Sample.b1) = inr "/cat.JPG" ∧
  ∃ mi, get_media_info Sample.env Sample.b1 = inr mi ∧
    (has_image mi = true ↔
       has_image_extension "/cat.JPG" ∨
       Submission.is_gallery Sample.b1 = Some true) ∧
    (image_url mi = VStr (Submission.url Sample.b1) ↔
       has_image_extension "/cat.JPG") ∧
    (image_url mi = VNone ↔ ¬ has_image_extension "/cat.JPG").
Proof.
  split; [reflexivity|]. split; [reflexivity|].
  apply (media_classifier_image Sample.env Sample.b1); reflexivity.
Defined.

Example media_info_samples :
  get_media_info Sample.env Sample.b1 =
    inr {| has_image := true; has_video := false;
           image_url := VStr "https://i.redd.it/cat.JPG?s=1"; video_url := VNone;
           mi_media_metadata := None |} ∧
  get_media_info Sample.env Sample.b2 =
    inr {| has_image := true; has_video := false; image_url := VNone;
           video_url := VNone; mi_media_metadata := None |} ∧
  get_media_info Sample.env Sample.a1 =
    inr {| has_image := false; has_video := false; image_url := VNone;
           video_url := VNone; mi_media_metadata := None |}.
Proof. repeat split; vm_compute; reflexivity. Qed.

(** C10: in what the classifier returns, [image_url] is not null only with
    [has_image] set, and [video_url] is not null only with [has_video] set. *)
Theorem media_urls_imply_flags E s mi :
  get_media_info E s = inr mi →
  (image_url mi ≠ VNone → has_image mi = true) ∧
  (video_url mi ≠ VNone → has_video mi = true).
Proof.
  unfold get_media_info, media_image. intros Hmi.
  destruct (str_truthy (Submission.url s));
    [destruct (is_image_url E (Submission.url s)) as [e|[|]]; [done|..]|];
    injection Hmi as <-; unfold media_gallery, media_video;
    destruct (flag_truthy (Submission.is_gallery s)),
             (flag_truthy (Submission.is_video s)); simpl; by split.
Qed.

Lemma media_urls_imply_flags_witness :
  get_media_info Sample.env Sample.b1 =
    inr {| has_image := true; has_video := false;
           image_url := VStr "https://i.redd.it/cat.JPG?s=1"; video_url := VNone;
           mi_media_metadata := None |} ∧
  (VStr "https://i.redd.it/cat.JPG?s=1" ≠ VNone → true = true) ∧
  (VNone ≠ VNone → false = true).
Proof.
  split; [reflexivity|].
  apply (media_urls_imply_flags Sample.env Sample.b1
           {| has_image := true; has_video := false;
              image_url := VStr "https://i.redd.it/cat.JPG?s=1"; video_url := VNone;
              mi_media_metadata := None |}).
  reflexivity.
Defined.

(** The converses fail: a gallery has [has_image] set and no [image_url]; a
    video without media object has [has_video] set and no [video_url]. *)
Example media_flags_without_urls E :
  get_media_info E
    (Submission.mk "g" 0 None "" "" 0 0 0 "" None None (Some true) None (inr [])) =
    inr {| has_image := true; has_video := false; image_url := VNone;
           video_url := VNone; mi_media_metadata := None |} ∧
  get_media_info E
    (Submission.mk "v" 0 None "" "" 0 0 0 "" (Some true) None None None (inr [])) =
    inr {| has_image := false; has_video := true; image_url := VNone;
           video_url := VNone; mi_media_metadata := None |}.
Proof. split; reflexivity. Qed.

(** * Further properties *)

(** ** Image URLs *)

Lemma endswith_spec s suffix :
  endswith s suffix = true ↔ ∃ stem, s = stem +:+ suffix.
Proof.
  induction s as [|c s IH]; simpl.
  - rewrite orb_false_r, bool_decide_eq_true. split.
    + intros <-. by exists "".
    + intros [[|c stem] Hstem]; [done|discriminate Hstem].
  - rewrite orb_true_iff, bool_decide_eq_true, IH. split.
    + intros [<-|[stem ->]]; [by exists ""|by exists (String c stem)].
    + intros [[|c' stem] Hstem]; [by left|].
      injection Hstem as <- ->. right. by exists stem.
Qed.

(** X1: [is_image_url] raises what [urlparse] raises, and else answers
    [True] exactly when the lowered path is some text followed by one of
    the four extensions: the case of the letters of the URL plays no part. *)
Theorem is_image_url_spec E url :
  (∀ e, is_image_url E url = inl e ↔ urlparse_path E url = inl e) ∧
  (is_image_url E url = inr true ↔
   ∃ path stem ext,
     urlparse_path E url = inr path ∧
     ext ∈ [".jpg"; ".jpeg"; ".png"; ".gif"] ∧
     lower path = stem +:+ ext).
Proof.
  unfold is_image_url. destruct (urlparse_path E url) as [e'|path]; split.
  - intros e. split; congruence.
  - split; [done|]. by intros (path & stem & ext & Hpath & _).
  - intros e. split; congruence.
  - split.
    + intros Htrue. injection Htrue as Htrue.
      apply existsb_image_extensions in Htrue as (ext & Hext & Hends).
      apply endswith_spec in Hends as [stem Hstem]. by exists path, stem, ext.
    + intros (path' & stem & ext & Hpath & Hext & Hstem).
      injection Hpath as <-. f_equal. apply existsb_image_extensions.
      exists ext. split; [done|]. apply endswith_spec. by exists stem.
Qed.

(** ** Video and gallery *)

Lemma media_image_video_url E s mi mi' :
  media_image E s mi = inr mi' →
  has_video mi' = has_video mi ∧ video_url mi' = video_url mi ∧
  mi_media_metadata mi' = mi_media_metadata mi.
Proof.
  unfold media_image. intros Hmi.
  destruct (str_truthy (Submission.url s));
    [destruct (is_image_url E (Submission.url s)) as [e|[|]]; [done|..]|];
    by injection Hmi as <-.
Qed.

(** X2: in what the classifier returns, [has_video] is set exactly when
    the flag [is_video] is there and true; [video_url] is then the
    [fallback_url] of the [reddit_video] entry of a non-empty [media] dict,
    null when the entry or its [fallback_url] is missing, and null as well
    without the flag or without [media]. *)
Theorem media_classifier_video E s mi :
  get_media_info E s = inr mi →
  (has_video mi = true ↔ Submission.is_video s = Some true) ∧
  (∀ m, Submission.is_video s = Some true → Submission.media s = Some m →
        m ≠ ∅ →
        video_url mi =
        match m !! "reddit_video" with
        | Some reddit_video => default VNone (reddit_video !! "fallback_url")
        | None => VNone
        end) ∧
  (Submission.is_video s ≠ Some true ∨ Submission.media s = None ∨
   Submission.media s = Some ∅ →
   video_url mi = VNone).
Proof.
  unfold get_media_info. intros Hmi.
  destruct (media_image E s _) as [e|mi0] eqn:Himage; [done|].
  apply media_image_video_url in Himage as (Hv & Hu & _). simpl in Hv, Hu.
  injection Hmi as <-.
  assert (has_video (media_gallery s (media_video s mi0)) =
          flag_truthy (Submission.is_video s)) as ->.
  { unfold media_gallery, media_video.
    by destruct (flag_truthy (Submission.is_gallery s)),
                (flag_truthy (Submission.is_video s)). }
  assert (video_url (media_gallery s (media_video s mi0)) =
          if flag_truthy (Submission.is_video s) &&
             dict_truthy (Submission.media s)
          then default VNone
                 (default ∅ (default ∅ (Submission.media s) !! "reddit_video")
                    !! "fallback_url")
          else VNone) as ->.
  { unfold media_gallery, media_video.
    by destruct (flag_truthy (Submission.is_gallery s)),
                (flag_truthy (Submission.is_video s)),
                (dict_truthy (Submission.media s)). }
  split; [apply flag_truthy_Some_true|]. split.
  - intros m Hvideo Hm Hne. apply flag_truthy_Some_true in Hvideo.
    rewrite Hvideo, Hm. simpl.
    apply map_size_non_empty_iff, Nat.eqb_neq in Hne. rewrite Hne. simpl.
    by destruct (m !! "reddit_video").
  - intros [Hno|[Hm|Hm]].
    + destruct (flag_truthy (Submission.is_video s)) eqn:Hf; [|done].
      by apply flag_truthy_Some_true in Hf.
    + rewrite Hm. simpl. by rewrite andb_false_r.
    + rewrite Hm. simpl. rewrite map_size_empty. simpl. by rewrite andb_false_r.
Qed.

Lemma media_classifier_video_witness :
  get_media_info Sample.env SampleMedia.video =
    inr {| has_image := false; has_video := true; image_url := VNone;
           video_url := VStr "https://v.redd.it/x1/DASH_720.mp4";
           mi_media_metadata := None |} ∧
  (true = true ↔ Submission.is_video SampleMedia.video = Some true).
Proof.
  split; [vm_compute; reflexivity|].
  apply (media_classifier_video Sample.env SampleMedia.video
           {| has_image := false; has_video := true; image_url := VNone;
              video_url := VStr "https://v.redd.it/x1/DASH_720.mp4";
              mi_media_metadata := None |}).
  vm_compute. reflexivity.
Defined.

Lemma get_media_info_metadata E s mi :
  get_media_info E s = inr mi →
  mi_media_metadata mi =
  if flag_truthy (Submission.is_gallery s)
  then match Submission.media_metadata s with
       | Some md => md
       | None => None
       end
  else None.
Proof.
  unfold get_media_info. intros Hmi.
  destruct (media_image E s _) as [e|mi0] eqn:Himage; [done|].
  apply media_image_video_url in Himage as (_ & _ & Hm). simpl in Hm.
  injection Hmi as <-. unfold media_gallery, media_video.
  by destruct (flag_truthy (Submission.is_gallery s)),
              (flag_truthy (Submission.is_video s)),
              (Submission.media_metadata s).
Qed.

Lemma get_media_info_raises E s e :
  get_media_info E s = inl e ↔
  Submission.url s ≠ "" ∧ urlparse_path E (Submission.url s) = inl e.
Proof.
  unfold get_media_info, media_image, str_truthy, is_image_url.
  case_bool_decide as Hurl.
  - split; [done|]. by intros [? _].
  - destruct (urlparse_path E (Submission.url s)) as [e'|path].
    + split; [by intros [= ->]|by intros [_ [= ->]]].
    + destruct (existsb (endswith (lower path)) image_extensions);
        (split; [done|by intros [_ ?]]).
Qed.

(** ** Building a record *)

(** X3: building the record of a submission raises exactly what the parse
    of a non-empty URL raises, and else what the fetch of the comments
    raises; it returns exactly when the URL is empty or parses and the
    comments are fetched. *)
Theorem build_post_data_raises E comment_limit subreddit s :
  (∀ e, build_post_data E comment_limit subreddit s = inl e ↔
        (Submission.url s ≠ "" ∧ urlparse_path E (Submission.url s) = inl e) ∨
        ((Submission.url s = "" ∨
          ∃ path, urlparse_path E (Submission.url s) = inr path) ∧
         Submission.comments s = inl e)) ∧
  ((∃ pd, build_post_data E comment_limit subreddit s = inr pd) ↔
   (Submission.url s = "" ∨
    ∃ path, urlparse_path E (Submission.url s) = inr path) ∧
   ∃ cl, Submission.comments s = inr cl).
Proof.
  assert ((∃ mi, get_media_info E s = inr mi) ↔
          (Submission.url s = "" ∨
           ∃ path, urlparse_path E (Submission.url s) = inr path)) as Hreturns.
  { split.
    - intros [mi Hmi]. destruct (decide (Submission.url s = "")); [by left|].
      right. destruct (urlparse_path E (Submission.url s)) as [e|path] eqn:Hp;
        [|by eexists].
      assert (get_media_info E s = inl e) as Hraise
        by by apply get_media_info_raises.
      congruence.
    - intros Hparse. apply get_media_info_returns. intros Hurl.
      by destruct Hparse. }
  unfold build_post_data.
  destruct (get_media_info E s) as [e'|mi] eqn:Hmi.
  - apply get_media_info_raises in Hmi as [Hurl Hparse]. split.
    + intros e. split.
      * intros [= <-]. by left.
      * intros [[_ He]|[[?|[path Hpath]] _]]; congruence.
    + split; [by intros [pd ?]|].
      intros [[?|[path Hpath]] _]; congruence.
  - assert (Submission.url s = "" ∨
            ∃ path, urlparse_path E (Submission.url s) = inr path) as Hok
      by (apply Hreturns; by eexists).
    destruct (Submission.comments s) as [e'|cl]; split.
    + intros e. split; [intros [= <-]; by right|].
      intros [[Hurl He]|[_ [= <-]]]; [|done].
      destruct Hok as [?|[path Hpath]]; congruence.
    + split; [by intros [pd ?]|]. by intros [_ [cl ?]].
    + intros e. split; [done|].
      intros [[Hurl He]|[_ ?]]; [|done].
      destruct Hok as [?|[path Hpath]]; congruence.
    + split; [|by eexists]. intros _. split; [done|by eexists].
Qed.

Lemma comment_key_prefix_score x :
  String.prefix "comment_" ("comment_score_" +:+ x) = true.
Proof. done. Qed.

Lemma comment_key_prefix_body x :
  String.prefix "comment_" ("comment_body_" +:+ x) = true.
Proof. done. Qed.

(** Flattening the comments touches no field outside [comment_...]. *)
Lemma flatten_from_lookup_other (chosen : list Comment.t) k pd key :
  String.prefix "comment_" key = false →
  foldl (λ pd '(i, comment), flatten_comment i comment pd) pd
        (zip (seq k (length chosen)) (comment_entry <$> chosen)) !! key =
  pd !! key.
Proof.
  intros Hkey. revert k pd. induction chosen as [|c chosen IH]; intros k pd.
  { done. }
  simpl. rewrite IH, flatten_comment_entry.
  rewrite !lookup_insert_ne; [done|..]; intros <-.
  - by rewrite comment_key_prefix_body in Hkey.
  - by rewrite comment_key_prefix_score in Hkey.
Qed.

Lemma build_post_data_lookup_other E limit subreddit s mi pd key :
  get_media_info E s = inr mi →
  build_post_data E limit subreddit s = inr pd →
  String.prefix "comment_" key = false →
  pd !! key =
  add_gallery_item_count mi (post_data_literal E subreddit s mi) !! key.
Proof.
  unfold build_post_data. intros -> Hpd Hkey.
  destruct (Submission.comments s) as [|cl]; [done|]. injection Hpd as <-.
  rewrite fetch_comments_selected. unfold flatten_comments, enumerate.
  rewrite length_fmap. by apply flatten_from_lookup_other.
Qed.

Lemma add_gallery_item_count_lookup_ne mi pd key :
  key ≠ "gallery_item_count" →
  add_gallery_item_count mi pd !! key = pd !! key.
Proof.
  intros Hkey. unfold add_gallery_item_count.
  destruct (mi_media_metadata mi) as [[|item items]|]; [done| |done].
  by rewrite lookup_insert_ne.
Qed.

(** X4: a record holds the field [gallery_item_count] exactly when the
    submission carries a true [is_gallery] flag and a non-empty
    [media_metadata] dict; the field is the number of items of the dict. *)
Theorem record_gallery_item_count E comment_limit subreddit s pd :
  build_post_data E comment_limit subreddit s = inr pd →
  pd !! "gallery_item_count" =
  match Submission.is_gallery s, Submission.media_metadata s with
  | Some true, Some (Some (item :: items)) =>
      Some (VInt (Z.of_nat (length (item :: items))))
  | _, _ => None
  end.
Proof.
  intros Hpd.
  destruct (get_media_info E s) as [e|mi] eqn:Hmi.
  { unfold build_post_data in Hpd. by rewrite Hmi in Hpd. }
  rewrite (build_post_data_lookup_other _ _ _ _ _ _ _ Hmi Hpd) by done.
  apply get_media_info_metadata in Hmi.
  unfold add_gallery_item_count. rewrite Hmi.
  destruct (Submission.is_gallery s) as [[|]|]; simpl; try done.
  by destruct (Submission.media_metadata s) as [[[|item items]|]|].
Qed.

Lemma record_gallery_item_count_witness :
  build_post_data Sample.env 2 "pics" SampleMedia.gallery =
    inr SampleMedia.gallery_record ∧
  SampleMedia.gallery_record !! "gallery_item_count" = Some (VInt 3).
Proof.
  assert (build_post_data Sample.env 2 "pics" SampleMedia.gallery =
          inr SampleMedia.gallery_record) as Hbuilt.
  { unfold SampleMedia.gallery_record. apply inr_intro. vm_compute. exact I. }
  split; [exact Hbuilt|].
  exact (record_gallery_item_count Sample.env 2 "pics" SampleMedia.gallery
           SampleMedia.gallery_record Hbuilt).
Defined.

(** X5: the fields of the submission are in the record as the dict literal
    sets them, whatever the comments are: flattening the comments overwrites
    none of them.  In particular the key of the final ranking is the score
    of the submission. *)
Theorem record_submission_fields E comment_limit subreddit s mi pd :
  get_media_info E s = inr mi →
  build_post_data E comment_limit subreddit s = inr pd →
  pd !! "subreddit" = Some (VStr subreddit) ∧
  pd !! "post_id" = Some (VStr (Submission.id s)) ∧
  pd !! "created_utc" = Some (VStr (strftime E (Submission.created s))) ∧
  pd !! "post_flair" =
    Some (from_option VStr VNone (Submission.link_flair_text s)) ∧
  pd !! "title" = Some (VStr (Submission.title s)) ∧
  pd !! "selftext" = Some (VStr (str_slice_to (Submission.selftext s) 500)) ∧
  pd !! "score" = Some (VInt (Submission.score s)) ∧
  pd !! "upvote_ratio" = Some (VFloat (Submission.upvote_ratio s)) ∧
  pd !! "num_comments" = Some (VInt (Submission.num_comments s)) ∧
  pd !! "url" = Some (VStr (Submission.url s)) ∧
  pd !! "has_image" = Some (VBool (has_image mi)) ∧
  pd !! "has_video" = Some (VBool (has_video mi)) ∧
  pd !! "image_url" = Some (image_url mi) ∧
  pd !! "video_url" = Some (video_url mi) ∧
  pd !! "is_gallery" =
    Some (VBool (default false (Submission.is_gallery s))) ∧
  post_score pd = Submission.score s.
Proof.
  intros Hmi Hpd.
  assert (∀ key, String.prefix "comment_" key = false →
                 key ≠ "gallery_item_count" →
                 pd !! key = post_data_literal E subreddit s mi !! key) as Hkey.
  { intros key Hprefix Hne.
    rewrite (build_post_data_lookup_other _ _ _ _ _ _ _ Hmi Hpd) by done.
    by apply add_gallery_item_count_lookup_ne. }
  assert (pd !! "score" = Some (VInt (Submission.score s))) as Hscore
    by by rewrite Hkey.
  unfold post_score. rewrite Hscore.
  repeat split; try done; by rewrite Hkey.
Qed.

Lemma record_submission_fields_witness :
  get_media_info Sample.env Sample.b1 =
    inr {| has_image := true; has_video := false;
           image_url := VStr "https://i.redd.it/cat.JPG?s=1";
           video_url := VNone; mi_media_metadata := None |} ∧
  build_post_data Sample.env 3 "B" Sample.b1 = inr (Sample.built "B" Sample.b1) ∧
  Sample.built "B" Sample.b1 !! "post_id" = Some (VStr "b1") ∧
  post_score (Sample.built "B" Sample.b1) = 70.
Proof.
  assert (build_post_data Sample.env 3 "B" Sample.b1 =
          inr (Sample.built "B" Sample.b1)) as Hbuilt.
  { unfold Sample.built. apply inr_intro. vm_compute. exact I. }
  split; [reflexivity|]. split; [exact Hbuilt|].
  destruct (record_submission_fields Sample.env 3 "B" Sample.b1
              {| has_image := true; has_video := false;
                 image_url := VStr "https://i.redd.it/cat.JPG?s=1";
                 video_url := VNone; mi_media_metadata := None |}
              (Sample.built "B" Sample.b1) eq_refl Hbuilt)
    as (_ & Hid & H).
  split; [exact Hid|]. apply H.
Defined.

Lemma comment_body_key_inj (n m : nat) :
  "comment_body_" +:+ pretty n = "comment_body_" +:+ pretty m → n = m.
Proof. intros H. by apply (inj _), (inj pretty) in H. Qed.

Lemma flatten_from_lookup_body (chosen : list Comment.t) k pd (n : nat) :
  foldl (λ pd '(i, comment), flatten_comment i comment pd) pd
        (zip (seq k (length chosen)) (comment_entry <$> chosen))
    !! ("comment_body_" +:+ pretty n) =
  if decide (k < n ≤ k + length chosen)%nat
  then (λ c, VStr (str_slice_to (Comment.body c) 500))
         <$> chosen !! (n - k - 1)%nat
  else pd !! ("comment_body_" +:+ pretty n).
Proof.
  revert k pd. induction chosen as [|c chosen IH]; intros k pd.
  { simpl. case_decide; [lia|done]. }
  simpl. rewrite IH, flatten_comment_entry.
  rewrite lookup_insert_ne
    by (intros Heq; symmetry in Heq; by apply comment_body_key_ne_score in Heq).
  destruct (decide (n = k + 1)%nat) as [->|Hne].
  - rewrite lookup_insert_eq.
    rewrite decide_False by lia. rewrite decide_True by lia.
    by replace (k + 1 - k - 1)%nat with 0%nat by lia.
  - rewrite lookup_insert_ne by (intros ?%comment_body_key_inj; lia).
    repeat case_decide; try lia; try done.
    by replace (n - k - 1)%nat with (S (n - S k - 1)) by lia.
Qed.

Lemma post_data_literal_no_comment_body E subreddit s mi x :
  add_gallery_item_count mi (post_data_literal E subreddit s mi)
    !! ("comment_body_" +:+ x) = None.
Proof.
  rewrite add_gallery_item_count_lookup_ne
    by (cbv [String.append]; discriminate).
  apply not_elem_of_list_to_map_1. cbv [String.append]. simpl.
  intros Hin.
  repeat (apply elem_of_cons in Hin as [Hin|Hin]; [discriminate Hin|]).
  by apply elem_of_nil in Hin.
Qed.

(** X6: the numbered fields of a record read back the selected comments:
    for [1 <= n <= number selected], [comment_body_n] is the body of the
    [n]-th selected comment cut to 500 characters and [comment_score_n] its
    score; for any other [n] the record has neither field. *)
Theorem record_comment_fields E comment_limit subreddit s cl pd (n : nat) :
  Submission.comments s = inr cl →
  build_post_data E comment_limit subreddit s = inr pd →
  (∀ c, (0 < n)%nat →
        selected_comments cl comment_limit !! (n - 1)%nat = Some c →
        pd !! ("comment_body_" +:+ pretty n) =
          Some (VStr (str_slice_to (Comment.body c) 500)) ∧
        pd !! ("comment_score_" +:+ pretty n) = Some (VInt (Comment.score c))) ∧
  (n = 0%nat ∨ (length (selected_comments cl comment_limit) < n)%nat →
   pd !! ("comment_body_" +:+ pretty n) = None ∧
   pd !! ("comment_score_" +:+ pretty n) = None).
Proof.
  intros Hcl Hpd.
  rewrite (build_post_data_comment_score _ _ _ _ _ _ n Hcl Hpd).
  assert (pd !! ("comment_body_" +:+ pretty n) =
          (λ c, VStr (str_slice_to (Comment.body c) 500)) <$>
            (if decide (0 < n)%nat
             then selected_comments cl comment_limit !! (n - 1)%nat
             else None)) as ->.
  { clear -Hcl Hpd. unfold build_post_data in Hpd.
    destruct (get_media_info E s) as [|mi]; [done|].
    rewrite Hcl in Hpd. injection Hpd as <-.
    rewrite fetch_comments_selected. unfold flatten_comments, enumerate.
    rewrite length_fmap, flatten_from_lookup_body.
    rewrite post_data_literal_no_comment_body. unfold selected_comments.
    case_decide as Hn.
    - rewrite decide_True by lia.
      by replace (n - 0 - 1)%nat with (n - 1)%nat by lia.
    - case_decide; [|done]. symmetry. apply fmap_None, lookup_ge_None_2. lia. }
  fold (selected_comments cl comment_limit). split.
  - intros c Hn Hc. rewrite decide_True by done. by rewrite Hc.
  - intros [->|Hn]; [done|].
    case_decide; [|done]. by rewrite lookup_ge_None_2 by lia.
Qed.

Lemma record_comment_fields_witness :
  Submission.comments Sample.b1 = inr Sample.thread ∧
  build_post_data Sample.env 3 "B" Sample.b1 = inr (Sample.built "B" Sample.b1) ∧
  selected_comments Sample.thread 3 !! 0%nat = Some (Sample.comment "bob" "second" 7) ∧
  Sample.built "B" Sample.b1 !! "comment_body_1" = Some (VStr "second") ∧
  Sample.built "B" Sample.b1 !! "comment_score_1" = Some (VInt 7).
Proof.
  assert (build_post_data Sample.env 3 "B" Sample.b1 =
          inr (Sample.built "B" Sample.b1)) as Hbuilt.
  { unfold Sample.built. apply inr_intro. vm_compute. exact I. }
  split; [reflexivity|]. split; [exact Hbuilt|].
  split; [vm_compute; reflexivity|].
  apply (proj1 (record_comment_fields Sample.env 3 "B" Sample.b1 Sample.thread
                  (Sample.built "B" Sample.b1) 1 eq_refl Hbuilt)
           (Sample.comment "bob" "second" 7)).
  - lia.
  - vm_compute. reflexivity.
Defined.

(** ** More on the comment selector *)

(** X7: for every limit, also zero or negative, the selector returns
    [min (max 1 limit) eligible] entries: none exactly when the listing has
    no eligible comment. *)
Theorem fetch_comments_count cl limit :
  Z.of_nat (length (fetch_comments cl limit)) =
    Z.min (Z.max 1 limit) (Z.of_nat (length (filter eligible cl))) ∧
  (fetch_comments cl limit = [] ↔ filter eligible cl = []).
Proof.
  pose proof (fetch_comments_length cl limit) as Hlen. split; [lia|].
  split; intros Hnil.
  - rewrite Hnil in Hlen. simpl in Hlen.
    apply length_zero_iff_nil. lia.
  - rewrite Hnil in Hlen. simpl in Hlen.
    apply length_zero_iff_nil. lia.
Qed.

(** X8: the comments selected are the best of the eligible ones: together
    with the eligible comments left out they make up all eligible comments
    of the listing, and none left out has a larger score than one selected. *)
Theorem fetch_comments_best cl limit :
  fetch_comments cl limit = comment_entry <$> selected_comments cl limit ∧
  ∃ rest,
    selected_comments cl limit ++ rest ≡ₚ filter eligible cl ∧
    ∀ a b, a ∈ selected_comments cl limit → b ∈ rest →
           Comment.score b ≤ Comment.score a.
Proof.
  split; [apply fetch_comments_selected|].
  unfold selected_comments.
  exists (drop (Z.to_nat (Z.max 1 limit))
            (filter eligible (sorted_reverse Comment.score cl))).
  split.
  - by rewrite take_drop, filter_sorted_reverse, sorted_reverse_perm.
  - intros a b Ha Hb.
    pose proof (sorted_reverse_sorted Comment.score (filter eligible cl)) as Hs.
    rewrite <- filter_sorted_reverse in Hs.
    rewrite <- (take_drop (Z.to_nat (Z.max 1 limit))) in Hs.
    by apply (StronglySorted_app_1_elem_of _ _ _ _ _ Hs).
Qed.

Lemma prefix_fmap_2 {A B} (f : A → B) (l1 l2 : list A) :
  l1 `prefix_of` l2 → f <$> l1 `prefix_of` f <$> l2.
Proof. intros [k ->]. rewrite fmap_app. by eexists. Qed.

(** X9: a larger limit only appends entries: what the selector returns for
    a limit is a prefix of what it returns for any larger one. *)
Theorem fetch_comments_limit_mono cl limit limit' :
  limit ≤ limit' →
  fetch_comments cl limit `prefix_of` fetch_comments cl limit'.
Proof.
  intros Hle. rewrite !fetch_comments_selected. apply prefix_fmap_2.
  replace (Z.to_nat (Z.max 1 limit))
    with (Nat.min (Z.to_nat (Z.max 1 limit)) (Z.to_nat (Z.max 1 limit')))
    by lia.
  rewrite <- take_take. apply prefix_take.
Qed.

Lemma fetch_comments_limit_mono_witness :
  2 ≤ 3 ∧
  fetch_comments Sample.thread 2 `prefix_of` fetch_comments Sample.thread 3.
Proof. split; [lia|]. apply fetch_comments_limit_mono. lia. Defined.

Lemma str_take_spec n s :
  ∃ rest, s = str_take n s +:+ rest ∧
          ((String.length s ≤ n)%nat → rest = "") ∧
          ((n ≤ String.length s)%nat → String.length (str_take n s) = n).
Proof.
  revert s. induction n as [|n IH]; intros [|c s].
  - exists "". by repeat split.
  - exists (String c s). split; [done|]. split; [simpl; lia|done].
  - exists "". split; [done|]. split; [done|simpl; lia].
  - destruct (IH s) as (rest & Hs & Hshort & Hlong). exists rest. simpl.
    split; [|split].
    + change (String c (str_take n s) +:+ rest)
        with (String c (str_take n s +:+ rest)). by rewrite <- Hs.
    + intros Hlen. apply Hshort. lia.
    + intros Hlen. rewrite Hlong; [done|lia].
Qed.

(** X10: the slice [[:500]] of a body or of a selftext keeps its first
    characters: the text is the slice followed by a rest; a text of at most
    500 characters is kept as it is; of a longer one exactly 500 characters
    are kept. *)
Theorem str_slice_to_500_spec s :
  (∃ rest, s = str_slice_to s 500 +:+ rest) ∧
  ((String.length s ≤ 500)%nat → str_slice_to s 500 = s) ∧
  ((500 < String.length s)%nat →
   String.length (str_slice_to s 500) = 500%nat).
Proof.
  change (str_slice_to s 500) with (str_take 500 s).
  destruct (str_take_spec 500 s) as (rest & Hs & Hshort & Hlong).
  split; [by exists rest|]. split.
  - intros Hlen. rewrite (Hshort Hlen) in Hs.
    rewrite Hs at 2. clear. generalize (str_take 500 s). intros t.
    induction t as [|c t IH]; [done|].
    change (String c t +:+ "") with (String c (t +:+ "")). by rewrite <- IH.
  - intros Hlen. apply Hlong. lia.
Qed.

(** ** More on the walk of a forum *)

(** Whatever the listing is, the walk appends the records of submissions
    of the window, in the order of the listing, and a pause per record. *)
Lemma walk_appends E comment_limit months subreddit l st :
  ∃ included recs,
    included `sublist_of` filter (in_window E months) (delivered l) ∧
    Forall2 (λ s pd, build_post_data E comment_limit subreddit s = inr pd)
            included recs ∧
    (walk E (start_of E months) (now E) comment_limit subreddit l st).1 =
    extend st recs (replicate (length recs) (Sleep 100)).
Proof.
  revert st. induction l as [|[e|s] l IH]; intros st.
  - exists [], []. split; [done|]. split; [constructor|].
    simpl. by rewrite extend_nil.
  - exists [], []. split; [apply sublist_nil_l|]. split; [constructor|].
    simpl. by rewrite extend_nil.
  - unfold delivered. simpl. fold (delivered l). rewrite filter_cons.
    destruct (Z.ltb_spec (Submission.created s) (start_of E months)) as [Hold|Hstart].
    { exists [], []. split; [apply sublist_nil_l|]. split; [constructor|].
      simpl. by rewrite extend_nil. }
    destruct (Z.ltb_spec (now E) (Submission.created s)) as [Hnew|Hend].
    { rewrite decide_False by (unfold in_window; lia). apply IH. }
    rewrite decide_True by (unfold in_window; lia).
    destruct (build_post_data E comment_limit subreddit s) as [e|pd] eqn:Hpd.
    { exists [], []. split; [apply sublist_nil_l|]. split; [constructor|].
      simpl. by rewrite extend_nil. }
    destruct (IH (sleep 100 (append_post pd st)))
      as (included & recs & Hsub & Hrecs & ->).
    exists (s :: included), (pd :: recs).
    split; [by apply sublist_skip|]. split; [by constructor|].
    unfold extend, sleep, append_post. simpl. by rewrite <- !app_assoc.
Qed.

(** X11: for every listing, in any order and with raises, every record
    the walk appends is that of a submission the listing yields and that
    was created inside the window; the records keep the order of the
    listing; and behind each the walk pauses for 100 milliseconds. *)
Theorem walk_only_window E comment_limit months subreddit l st :
  ∃ included recs,
    included `sublist_of` filter (in_window E months) (delivered l) ∧
    Forall2 (λ s pd, build_post_data E comment_limit subreddit s = inr pd)
            included recs ∧
    all_posts (walk E (start_of E months) (now E) comment_limit subreddit
                    l st).1 = all_posts st ++ recs ∧
    effects (walk E (start_of E months) (now E) comment_limit subreddit
                  l st).1 =
    effects st ++ replicate (length recs) (Sleep 100).
Proof.
  destruct (walk_appends E comment_limit months subreddit l st)
    as (included & recs & Hsub & Hrecs & ->).
  by exists included, recs.
Qed.

(** ** More on the loop over the forums *)

Lemma state_eq (a b : state) :
  all_posts a = all_posts b → effects a = effects b → a = b.
Proof. destruct a, b. simpl. by intros -> ->. Qed.

Lemma fetch_subreddits_effects E comment_limit months subreddits st :
  effects (fetch_subreddits E comment_limit months subreddits st) =
  effects st ++ concat (forum_effects E comment_limit months <$> subreddits).
Proof.
  revert st. induction subreddits as [|s subreddits IH]; intros st.
  { simpl. by rewrite app_nil_r. }
  rewrite fetch_subreddits_cons, IH, fetch_subreddit_outcome, walk_frame.
  csimpl. unfold forum_effects, forum_raised. by rewrite <- !app_assoc.
Qed.

(** X12: the run is the forums' parts one behind the other, in the order
    of the configuration, each part depending on its forum alone: the
    records are those of each forum's own walk, the effects those of each
    walk followed by the line (and, for a 429, the sleep) of the way it
    ended; and the run over two lists of forums one behind the other is the
    run over the first extended by the run over the second. *)
Theorem run_forum_by_forum E comment_limit months subreddits more :
  all_posts (fetch_posts_from_subreddits E subreddits comment_limit months) =
    concat (forum_posts E comment_limit months <$> subreddits) ∧
  effects (fetch_posts_from_subreddits E subreddits comment_limit months) =
    concat (forum_effects E comment_limit months <$> subreddits) ∧
  fetch_posts_from_subreddits E (subreddits ++ more) comment_limit months =
    extend (fetch_posts_from_subreddits E subreddits comment_limit months)
      (all_posts (fetch_posts_from_subreddits E more comment_limit months))
      (effects (fetch_posts_from_subreddits E more comment_limit months)).
Proof.
  unfold fetch_posts_from_subreddits. split; [|split].
  - by rewrite fetch_subreddits_posts.
  - by rewrite fetch_subreddits_effects.
  - apply state_eq; simpl.
    + rewrite !fetch_subreddits_posts. simpl. by rewrite fmap_app, concat_app.
    + rewrite !fetch_subreddits_effects. simpl. by rewrite fmap_app, concat_app.
Qed.

Lemma forum_parts E comment_limit months subreddit :
  ∃ included recs,
    included `sublist_of`
      filter (in_window E months) (delivered (reddit_new E subreddit)) ∧
    Forall2 (λ s pd, build_post_data E comment_limit subreddit s = inr pd)
            included recs ∧
    forum_posts E comment_limit months subreddit = recs ∧
    forum_effects E comment_limit months subreddit =
      replicate (length recs) (Sleep 100) ++
      outcome_effects subreddit (forum_raised E comment_limit months subreddit).
Proof.
  destruct (walk_appends E comment_limit months subreddit
              (reddit_new E subreddit) {| all_posts := []; effects := [] |})
    as (included & recs & Hsub & Hrecs & Hwalk).
  exists included, recs. split; [done|]. split; [done|].
  unfold forum_posts, forum_effects. by rewrite Hwalk.
Qed.

Lemma filter_is_pause_replicate n :
  filter (λ ev, is_pause ev) (replicate n (Sleep 100)) = replicate n (Sleep 100).
Proof.
  induction n as [|n IH]; [done|]. simpl.
  rewrite filter_cons, decide_True by done. by rewrite IH.
Qed.

Lemma filter_is_pause_outcome subreddit raised :
  filter (λ ev, is_pause ev) (outcome_effects subreddit raised) = [].
Proof.
  by destruct raised as [[code msg|msg]|]; simpl; [destruct (code =? 429)|..].
Qed.

(** X13: the run pauses for 100 milliseconds once per record it collects,
    and never otherwise. *)
Theorem run_pauses_per_record E subreddits comment_limit months :
  length (filter (λ ev, is_pause ev)
            (effects (fetch_posts_from_subreddits E subreddits comment_limit
                                                  months))) =
  length (all_posts (fetch_posts_from_subreddits E subreddits comment_limit
                                                 months)).
Proof.
  unfold fetch_posts_from_subreddits.
  rewrite fetch_subreddits_posts, fetch_subreddits_effects. simpl.
  induction subreddits as [|s subreddits IH]; [done|]. csimpl.
  rewrite filter_app, !length_app, IH. f_equal.
  destruct (forum_parts E comment_limit months s)
    as (included & recs & _ & _ & -> & ->).
  rewrite filter_app, filter_is_pause_replicate, filter_is_pause_outcome.
  by rewrite app_nil_r, length_replicate.
Qed.

Lemma elem_of_concat {A} (x : A) (ls : list (list A)) :
  x ∈ concat ls ↔ ∃ l, l ∈ ls ∧ x ∈ l.
Proof.
  induction ls as [|l ls IH]; simpl.
  - split; [by intros ?%elem_of_nil|]. by intros (l & ?%elem_of_nil & _).
  - rewrite elem_of_app, IH. split.
    + intros [Hx|(l' & Hl' & Hx)]; [exists l|exists l'];
        (split; [|done]); apply elem_of_cons; auto.
    + intros (l' & [->|Hl']%elem_of_cons & Hx); [by left|].
      right. by exists l'.
Qed.

Lemma sleep_60_outcome subreddit raised :
  Sleep 60000 ∈ outcome_effects subreddit raised ↔
  ∃ msg, raised = Some (ResponseException 429 msg).
Proof.
  destruct raised as [[code msg|msg]|]; simpl.
  - destruct (Z.eqb_spec code 429) as [->|Hne]; split.
    + intros _. by exists msg.
    + intros _. apply elem_of_cons. right. apply elem_of_cons. by left.
    + intros [?|?%elem_of_nil]%elem_of_cons; done.
    + intros [msg' [= ? _]]. done.
  - split; [intros [?|?%elem_of_nil]%elem_of_cons; done|by intros [? ?]].
  - split; [intros [?|?%elem_of_nil]%elem_of_cons; done|by intros [? ?]].
Qed.

(** X14: the run sleeps for 60 seconds exactly when the walk of one of the
    forums ends by a response of status 429: no other exception, and no
    other status, makes it wait. *)
Theorem run_sleeps_only_on_429 E subreddits comment_limit months :
  Sleep 60000 ∈ effects (fetch_posts_from_subreddits E subreddits comment_limit
                                                     months) ↔
  ∃ subreddit msg,
    subreddit ∈ subreddits ∧
    forum_raised E comment_limit months subreddit =
      Some (ResponseException 429 msg).
Proof.
  unfold fetch_posts_from_subreddits. rewrite fetch_subreddits_effects. simpl.
  rewrite elem_of_concat. split.
  - intros (evs & (s & -> & Hs)%list_elem_of_fmap & Hin).
    destruct (forum_parts E comment_limit months s)
      as (included & recs & _ & _ & _ & Heff).
    rewrite Heff in Hin. apply elem_of_app in Hin as [Hin|Hin].
    { by apply elem_of_replicate_inv in Hin. }
    apply sleep_60_outcome in Hin as [msg Hmsg]. by exists s, msg.
  - intros (s & msg & Hs & Hraised).
    exists (forum_effects E comment_limit months s). split.
    { apply list_elem_of_fmap. by exists s. }
    destruct (forum_parts E comment_limit months s)
      as (included & recs & _ & _ & _ & ->).
    apply elem_of_app. right. apply sleep_60_outcome. by exists msg.
Qed.

Lemma build_post_data_subreddit E comment_limit subreddit s pd :
  build_post_data E comment_limit subreddit s = inr pd →
  pd !! "subreddit" = Some (VStr subreddit).
Proof.
  intros Hpd. destruct (get_media_info E s) as [e|mi] eqn:Hmi.
  { unfold build_post_data in Hpd. by rewrite Hmi in Hpd. }
  rewrite (build_post_data_lookup_other _ _ _ _ _ _ _ Hmi Hpd) by done.
  by rewrite add_gallery_item_count_lookup_ne.
Qed.

(** X15: every record the run collects is the record of a submission that
    the listing of a configured forum yields and that was created inside
    the window, and its field [subreddit] is the name of that forum. *)
Theorem run_record_provenance E subreddits comment_limit months pd :
  pd ∈ all_posts (fetch_posts_from_subreddits E subreddits comment_limit months) →
  ∃ subreddit s,
    subreddit ∈ subreddits ∧
    inr s ∈ reddit_new E subreddit ∧
    start_of E months ≤ Submission.created s ≤ now E ∧
    build_post_data E comment_limit subreddit s = inr pd ∧
    pd !! "subreddit" = Some (VStr subreddit).
Proof.
  unfold fetch_posts_from_subreddits. rewrite fetch_subreddits_posts. simpl.
  intros (recs' & (sub & -> & Hsub)%list_elem_of_fmap & Hpd)%elem_of_concat.
  destruct (forum_parts E comment_limit months sub)
    as (included & recs & Hincl & Hrecs & Hposts & _).
  rewrite Hposts in Hpd.
  apply list_elem_of_lookup in Hpd as [i Hi].
  destruct (Forall2_lookup_r _ _ _ _ _ Hrecs Hi) as (s & Hs & Hbuild).
  apply list_elem_of_lookup_2 in Hs.
  apply (sublist_subseteq _ _ Hincl), list_elem_of_filter in Hs as [Hwin Hs].
  apply list_elem_of_omap in Hs as (x & Hx & Hxs).
  destruct x as [e|s']; [done|]. injection Hxs as ->.
  exists sub, s. repeat split; try done; try apply Hwin.
  by eapply build_post_data_subreddit.
Qed.

Lemma run_record_provenance_witness :
  Sample.first_record
    ∈ all_posts (fetch_posts_from_subreddits Sample.env ["A"; "B"] 3 1) ∧
  ∃ subreddit s,
    subreddit ∈ ["A"; "B"] ∧
    inr s ∈ reddit_new Sample.env subreddit ∧
    start_of Sample.env 1 ≤ Submission.created s ≤ now Sample.env ∧
    build_post_data Sample.env 3 subreddit s = inr Sample.first_record ∧
    Sample.first_record !! "subreddit" = Some (VStr subreddit).
Proof.
  assert (Sample.first_record
            ∈ all_posts (fetch_posts_from_subreddits Sample.env ["A"; "B"] 3 1))
    as Hin.
  { apply (list_elem_of_lookup_2 _ 0%nat). unfold Sample.first_record.
    apply Some_intro. vm_compute. exact I. }
  split; [exact Hin|].
  exact (run_record_provenance Sample.env ["A"; "B"] 3 1 Sample.first_record Hin).
Defined.

(** ** More on the export *)





(** A run of the sample in which the write raises. *)
Example main_write_fails :
  last (main SampleMedia.readonly_env Sample.cfg) =
    Some (Log ERROR "Error saving data to CSV: Permission denied") ∧
  length (main SampleMedia.readonly_env Sample.cfg) = 10%nat.
Proof. split; vm_compute; reflexivity. Qed.

(** X17: for every [post_limit] the rows exported are records collected,
    none of them twice unless collected twice; with a [post_limit] of the
    number collected or more, every record collected is exported. *)
Theorem top_posts_no_invention posts limit :
  top_posts posts limit ⊆+ posts ∧
  (Z.of_nat (length posts) ≤ limit → top_posts posts limit ≡ₚ posts).
Proof.
  unfold top_posts. split.
  - destruct (slice_to_take_drop (sorted_reverse post_score posts) limit)
      as [n ->].
    rewrite <- (sorted_reverse_perm post_score posts) at 2.
    apply submseteq_take.
  - intros Hlimit. unfold slice_to.
    rewrite (proj2 (Z.ltb_ge limit 0)) by lia.
    rewrite take_ge by (rewrite sorted_reverse_length; lia).
    apply sorted_reverse_perm.
Qed.

(** X18: with a negative [post_limit] the export drops that many rows from
    the low end of the ranking: of [total] records, [total + post_limit]
    are exported, none if that is negative. *)
Theorem top_posts_negative posts limit :
  limit < 0 →
  top_posts posts limit =
    take (Z.to_nat (Z.of_nat (length posts) + limit))
         (sorted_reverse post_score posts) ∧
  Z.of_nat (length (top_posts posts limit)) =
    Z.max 0 (Z.of_nat (length posts) + limit).
Proof.
  intros Hlimit. unfold top_posts, slice_to.
  rewrite (proj2 (Z.ltb_lt limit 0)) by done.
  rewrite sorted_reverse_length. split; [done|].
  rewrite length_take, sorted_reverse_length. lia.
Qed.

Lemma top_posts_negative_witness :
  -2 < 0 ∧
  Z.of_nat (length (top_posts [Sample.record 5; Sample.record 9; Sample.record 7] (-2))) =
    Z.max 0 (Z.of_nat (length [Sample.record 5; Sample.record 9; Sample.record 7]) + -2).
Proof.
  split; [lia|].
  apply (top_posts_negative [Sample.record 5; Sample.record 9; Sample.record 7] (-2)).
  lia.
Defined.

Lemma sorted_reverse_constant {A} (key : A → Z) v l :
  Forall (λ x, key x = v) l → sorted_reverse key l = l.
Proof.
  induction 1 as [|x l Hx Hl IH]; [done|]. simpl.
  change (foldr (insert_desc key) [] l) with (sorted_reverse key l).
  rewrite IH. destruct Hl as [|y l Hy Hl]; [done|]. simpl.
  by rewrite Hx, Hy, Z.ltb_irrefl.
Qed.

(** X19: the ranking of the export is stable: for every score, the rows
    exported with that score are the first records collected with that
    score, in the order they were collected (the order of the forums, then
    of the listings). *)
Theorem top_posts_ties_in_order posts limit v :
  filter (λ pd, post_score pd = v) (top_posts posts limit)
    `prefix_of` filter (λ pd, post_score pd = v) posts.
Proof.
  unfold top_posts.
  destruct (slice_to_take_drop (sorted_reverse post_score posts) limit)
    as [n ->].
  assert (filter (λ pd, post_score pd = v) (sorted_reverse post_score posts) =
          filter (λ pd, post_score pd = v) posts) as <-.
  { rewrite filter_sorted_reverse. apply (sorted_reverse_constant _ v).
    apply Forall_forall. by intros pd [? _]%list_elem_of_filter. }
  rewrite <- (take_drop n (sorted_reverse post_score posts)) at 2.
  rewrite filter_app. by apply prefix_app_r.
Qed.

(** ** Examples *)

Lemma str_slice_to_500_spec_witness :
  (500 < String.length Sample.long_text)%nat ∧
  String.length (str_slice_to Sample.long_text 500) = 500%nat.
Proof.
  assert (String.length Sample.long_text = 600%nat) as Hlen
    by (vm_compute; reflexivity).
  split; [rewrite Hlen; lia|].
  apply (str_slice_to_500_spec Sample.long_text). rewrite Hlen. lia.
Defined.

(** With a parser that rejects every URL, the first submission of the
    window ends the walk of its forum: the forum gives no record, and the
    run goes on to log the error. *)
Example run_with_rejected_urls :
  build_post_data SampleMedia.strict_env 3 "B" Sample.b1 =
    inl (Exception "Invalid IPv6 URL") ∧
  fetch_posts_from_subreddits SampleMedia.strict_env ["B"] 3 1 =
    {| all_posts := [];
       effects := [Log ERROR "Error fetching posts from r/B: Invalid IPv6 URL"] |}.
Proof. split; vm_compute; reflexivity. Qed.

Example selected_comments_sample :
  selected_comments Sample.thread 3 =
    [Sample.comment "bob" "second" 7; Comment.mk None "gone" 7;
     Sample.comment "alice" "first" 3] ∧
  fetch_comments Sample.thread (-5) =
    [[("comment_body", VStr "second"); ("comment_score", VInt 7)]].
Proof. split; vm_compute; reflexivity. Qed.
